(** * Anthropic -> Azure OpenAI translation proxy (src/src/proxy.ts)

    A shallow embedding of the proxy's translators: the model mapper
    ([mapModel]), the request translator (the [openaiReq] object built in
    [createProxy]), the non-streaming response translator
    ([handleNonStreaming]) and the streaming translator ([handleStreaming]),
    followed by the properties established about them.

    Conventions of the embedding.
    - A JavaScript string is represented by the bytes of its UTF-8 encoding
      ([string]); every string the proxy handles comes from decoding UTF-8
      or from [JSON.parse], so it is well formed.
    - [undefined] and [null] are [None]; a field the code reads with [||]
      or in an [if] goes through the truthiness helpers below.
    - A block index and the index of a tool call sent by the backend are
      integers ([Z]): the backend may send any, negative ones included.
    - [JSON.parse] is a built-in of the platform: it is a parameter of the
      development, returning the value already in the shape the code reads
      from it. *)

From Stdlib Require Import String Ascii List ZArith QArith Lia Bool.
From Stdlib.Strings Require Import Byte.
From stdpp Require Import base gmap sets list strings.
Import ListNotations.

Set Warnings "-register-all".

Local Open Scope string_scope.
Local Open Scope list_scope.
Local Open Scope nat_scope.

(** ** JavaScript strings *)

Module JsString.

(** [s.startsWith(p)] *)
Fixpoint startsWith (s p : string) {struct p} : bool :=
  match p, s with
  | EmptyString, _ => true
  | String _ _, EmptyString => false
  | String b p', String a s' => if Ascii.eqb a b then startsWith s' p' else false
  end.

(** [s.includes(sub)] *)
Fixpoint includes (s sub : string) : bool :=
  startsWith s sub ||
  match s with
  | EmptyString => false
  | String _ s' => includes s' sub
  end.

(** [s.slice(n)] for [0 <= n]; the code calls it behind an ASCII prefix of
    length [n], where code units and bytes agree. *)
Fixpoint slice (n : nat) (s : string) : string :=
  match n, s with
  | O, _ => s
  | S _, EmptyString => EmptyString
  | S n', String _ s' => slice n' s'
  end.

(** [s.split('\n')]: the pieces between line feeds, always at least one. *)
Fixpoint split_nl (s : string) : list string :=
  match s with
  | EmptyString => [EmptyString]
  | String a s' =>
      if Ascii.eqb a "010"%char then EmptyString :: split_nl s'
      else match split_nl s' with
           | [] => [String a EmptyString]
           | p :: ps => String a p :: ps
           end
  end.

Definition str_of_bytes (l : list byte) : string := string_of_list_byte l.

(** The white space and line terminators that [trim] strips, in UTF-8:
    U+0009..U+000D, U+0020, U+00A0, U+1680, U+2000..U+200A, U+2028,
    U+2029, U+202F, U+205F, U+3000, U+FEFF. *)
Definition whitespace : list string :=
  map str_of_bytes
    [ [x09]; [x0a]; [x0b]; [x0c]; [x0d]; [x20]; [xc2; xa0]; [xe1; x9a; x80];
      [xe2; x80; x80]; [xe2; x80; x81]; [xe2; x80; x82]; [xe2; x80; x83];
      [xe2; x80; x84]; [xe2; x80; x85]; [xe2; x80; x86]; [xe2; x80; x87];
      [xe2; x80; x88]; [xe2; x80; x89]; [xe2; x80; x8a]; [xe2; x80; xa8];
      [xe2; x80; xa9]; [xe2; x80; xaf]; [xe2; x81; x9f]; [xe3; x80; x80];
      [xef; xbb; xbf] ].

(** The length of the white-space character [s] starts with, if any. *)
Definition leading_space (ws : list string) (s : string) : option nat :=
  String.length <$> find (startsWith s) ws.

Fixpoint trimStart_with (ws : list string) (fuel : nat) (s : string) : string :=
  match fuel with
  | O => s
  | S fuel' =>
      match leading_space ws s with
      | Some n => trimStart_with ws fuel' (slice n s)
      | None => s
      end
  end.

Definition rev_string (s : string) : string :=
  string_of_list_ascii (rev (list_ascii_of_string s)).

Definition trimStart (s : string) : string :=
  trimStart_with whitespace (String.length s) s.

Definition trimEnd (s : string) : string :=
  rev_string (trimStart_with (map rev_string whitespace) (String.length s) (rev_string s)).

(** [s.trim()] *)
Definition trim (s : string) : string := trimEnd (trimStart s).

End JsString.
Import JsString.

(** ** JSON values and truthiness *)

Inductive json : Type :=
| JNull
| JBool (b : bool)
| JNumber (q : Q)
| JString (s : string)
| JArray (items : list json)
| JObject (fields : list (string * json)).

(** The literal [{}]. *)
Definition empty_object : json := JObject [].

Definition truthy_json (v : json) : bool :=
  match v with
  | JNull => false
  | JBool b => b
  | JNumber q => negb (Qeq_bool q 0)
  | JString s => negb (String.eqb s "")
  | JArray _ | JObject _ => true
  end.

(** [o || d] and [if (o)] on an optional string: the empty string is falsy. *)
Definition truthy_str (o : option string) : bool :=
  match o with
  | Some (String _ _) => true
  | _ => false
  end.

Definition or_str (o : option string) (d : string) : string :=
  match o with
  | Some (String a s) => String a s
  | _ => d
  end.

(** [o || d] on an optional count: zero is falsy. *)
Definition or_nat (o : option nat) (d : nat) : nat :=
  match o with
  | Some (S n) => S n
  | _ => d
  end.

Definition or_Z (o : option Z) (d : Z) : Z :=
  match o with
  | Some 0%Z | None => d
  | Some z => z
  end.

Definition or_json (o : option json) (d : json) : json :=
  match o with
  | Some v => if truthy_json v then v else d
  | None => d
  end.

(** [o ?? d]: only [null] and [undefined] take the default. *)
Definition nullish {A} (o : option A) (d : A) : A :=
  match o with
  | Some a => a
  | None => d
  end.

(** ** Model mapping *)

Record Deployments := {
  opus : string;
  sonnet : string;
  haiku : string
}.

Record AzureConfig := {
  endpoint : string;
  apiKey : string;
  apiVersion : string;
  deployments : Deployments
}.

Definition mapModel (model : string) (config : AzureConfig) : string :=
  if includes model "opus" then opus (deployments config)
  else if includes model "haiku" then haiku (deployments config)
  else sonnet (deployments config).

(** ** Request translation *)

Inductive Role := user | assistant | system.

Record InBlock := {
  blk_type : string;
  blk_text : option string
}.

Inductive InContent :=
| ContentString (s : string)
| ContentBlocks (blocks : list InBlock).

Record AnthropicMessage := {
  am_role : Role;
  am_content : InContent
}.

Record OpenAIMessage := {
  om_role : Role;
  om_content : string
}.

(** [parts.join('\n')] *)
Fixpoint join_nl (parts : list string) : string :=
  match parts with
  | [] => ""
  | [p] => p
  | p :: rest => p +:+ String "010" (join_nl rest)
  end.

Definition convertMessages (messages : list AnthropicMessage) (sys : option string)
  : list OpenAIMessage :=
  (if truthy_str sys then [ {| om_role := system; om_content := or_str sys "" |} ] else [])
  ++ map (fun msg =>
            {| om_role := am_role msg;
               om_content :=
                 match am_content msg with
                 | ContentString s => s
                 | ContentBlocks blocks =>
                     join_nl (map (fun b => or_str (blk_text b) "")
                                  (List.filter (fun b => String.eqb (blk_type b) "text") blocks))
                 end |})
         messages.

Record AnthropicTool := {
  tool_name : option string;
  tool_description : option string;
  tool_input_schema : option json
}.

Record OpenAIFunction := {
  fn_name : option string;
  fn_description : string;
  fn_parameters : json
}.

Record OpenAITool := {
  ot_type : string;
  ot_function : OpenAIFunction
}.

Definition convertTools (tools : list AnthropicTool) : list OpenAITool :=
  map (fun tool =>
         {| ot_type := "function";
            ot_function :=
              {| fn_name := tool_name tool;
                 fn_description := or_str (tool_description tool) "";
                 fn_parameters :=
                   or_json (tool_input_schema tool)
                           (JObject [("type", JString "object"); ("properties", JObject [])]) |} |})
      tools.

Record AnthropicRequest := {
  ar_model : string;
  ar_messages : list AnthropicMessage;
  ar_system : option string;
  ar_max_tokens : option Z;
  ar_temperature : option Q;
  ar_stream : option bool;
  ar_tools : option (list AnthropicTool)
}.

Record OpenAIRequest := {
  oa_model : string;
  oa_messages : list OpenAIMessage;
  oa_max_tokens : Z;
  oa_temperature : Q;
  oa_stream : bool;
  oa_tools : option (list OpenAITool);
  oa_tool_choice : option string
}.

(** [anthropicReq.stream === true] *)
Definition isStreaming (anthropicReq : AnthropicRequest) : bool :=
  match ar_stream anthropicReq with
  | Some true => true
  | _ => false
  end.

(** The [openaiReq] object of [createProxy], tools included. *)
Definition openaiReq (azure : AzureConfig) (anthropicReq : AnthropicRequest) : OpenAIRequest :=
  let has_tools :=
    match ar_tools anthropicReq with
    | Some (_ :: _) => true
    | _ => false
    end in
  {| oa_model := mapModel (ar_model anthropicReq) azure;
     oa_messages := convertMessages (ar_messages anthropicReq) (ar_system anthropicReq);
     oa_max_tokens := or_Z (ar_max_tokens anthropicReq) 4096;
     oa_temperature := nullish (ar_temperature anthropicReq) 1%Q;
     oa_stream := isStreaming anthropicReq;
     oa_tools :=
       if has_tools then convertTools <$> ar_tools anthropicReq else None;
     oa_tool_choice := if has_tools then Some "auto" else None |}.

(** ** Decoding a backend [Buffer]

    [chunk.toString()] decodes the bytes of one chunk as UTF-8 on their own:
    every ill-formed or truncated sequence becomes U+FFFD (bytes EF BF BD in
    the representation used here), as the UTF-8 decoder of the platform
    does. *)

Module Utf8.

Record Decoder := {
  needed : nat;
  lower : N;
  upper : N;
  pending : list byte
}.

Definition idle : Decoder :=
  {| needed := 0; lower := 128; upper := 191; pending := [] |}.

Definition replacement : list byte := [xef; xbf; xbd].

Definition between (lo hi n : N) : bool := ((lo <=? n) && (n <=? hi))%N.

(** A byte met while no sequence is in progress. *)
Definition lead (b : byte) : Decoder * list byte :=
  let n := Byte.to_N b in
  if (n <=? 127)%N then (idle, [b])
  else if between 194 223 n then
    ({| needed := 1; lower := 128; upper := 191; pending := [b] |}, [])
  else if between 224 239 n then
    ({| needed := 2;
        lower := if (n =? 224)%N then 160%N else 128%N;
        upper := if (n =? 237)%N then 159%N else 191%N;
        pending := [b] |}, [])
  else if between 240 244 n then
    ({| needed := 3;
        lower := if (n =? 240)%N then 144%N else 128%N;
        upper := if (n =? 244)%N then 143%N else 191%N;
        pending := [b] |}, [])
  else (idle, replacement).

Definition step (d : Decoder) (b : byte) : Decoder * list byte :=
  match needed d with
  | O => lead b
  | S k =>
      if between (lower d) (upper d) (Byte.to_N b) then
        match k with
        | O => (idle, pending d ++ [b])
        | S _ => ({| needed := k; lower := 128; upper := 191;
                     pending := pending d ++ [b] |}, [])
        end
      else let '(d', out) := lead b in (d', replacement ++ out)
  end.

Fixpoint decode (d : Decoder) (bs : list byte) : list byte :=
  match bs with
  | [] => match needed d with O => [] | S _ => replacement end
  | b :: rest => let '(d', out) := step d b in out ++ decode d' rest
  end.

End Utf8.

Definition Buffer := list byte.

Definition Buffer_toString (chunk : Buffer) : string :=
  str_of_bytes (Utf8.decode Utf8.idle chunk).

(** ** Streaming: what the handler reads from a parsed backend chunk *)

Record FunctionDelta := {
  fd_name : option string;
  fd_arguments : option string
}.

Record ToolCallDelta := {
  tcd_index : option Z;
  tcd_id : option string;
  tcd_function : option FunctionDelta
}.

Record Delta := {
  d_content : option string;
  d_tool_calls : option (list ToolCallDelta)
}.

Record StreamChoice := {
  sc_delta : option Delta;
  sc_finish_reason : option string
}.

Record Usage := {
  prompt_tokens : option nat;
  completion_tokens : option nat
}.

Record StreamChunk := {
  ch_choices : option (list StreamChoice);
  ch_usage : option Usage
}.

(** [tc.function?.name] and [tc.function?.arguments] *)
Definition tcd_name (tc : ToolCallDelta) : option string := tcd_function tc ≫= fd_name.
Definition tcd_arguments (tc : ToolCallDelta) : option string := tcd_function tc ≫= fd_arguments.

(** ** Streaming: what the handler writes to the client *)

Inductive StartBlock :=
| text_block (text : string)
| tool_use_block (id name : string) (input : json).

Inductive BlockDelta :=
| text_delta (text : string)
| input_json_delta (partial_json : string).

Inductive StopReason := end_turn | tool_use.

(** The [data] object of an event; the constant fields of [message_start]
    ([type], [role], empty [content], null [stop_reason] and
    [stop_sequence]) and the null [stop_sequence] of [message_delta] are
    left out. *)
Inductive EventData :=
| message_start (id model : string) (input_tokens output_tokens : nat)
| content_block_start (index : Z) (content_block : StartBlock)
| content_block_delta (index : Z) (delta : BlockDelta)
| content_block_stop (index : Z)
| message_delta (stop_reason : StopReason) (output_tokens : nat)
| message_stop.

Record Frame := {
  event : string;
  data : EventData
}.

(** [sseEvent(event, data)]: one frame [event: ...\ndata: ...\n\n]. *)
Definition sseEvent (event : string) (data : EventData) : Frame :=
  {| event := event; data := data |}.

(** The client-facing response: the frames delivered so far, and whether
    [end()] has been called. A [write] after [end()] delivers nothing. *)
Record ServerResponse := {
  sent : list Frame;
  writableEnded : bool
}.

Definition res_write (r : ServerResponse) (f : Frame) : ServerResponse :=
  if writableEnded r then r
  else {| sent := sent r ++ [f]; writableEnded := false |}.

Definition res_end (r : ServerResponse) : ServerResponse :=
  {| sent := sent r; writableEnded := true |}.

(** ** Streaming: the state of one request *)

Record ToolCall := {
  tc_id : string;
  tc_name : string;
  tc_arguments : string
}.

Inductive Promise := pending | resolved | rejected.

Record StreamState := {
  res : ServerResponse;
  promise : Promise;
  inputTokens : nat;
  outputTokens : nat;
  buffer : string;
  textBlockStarted : bool;
  currentBlockIndex : Z;
  (** a [Map], iterated in insertion order *)
  toolCalls : list (Z * ToolCall);
  toolBlocksStarted : gset Z
}.

Definition with_res (r : ServerResponse) (s : StreamState) : StreamState :=
  {| res := r; promise := promise s; inputTokens := inputTokens s;
     outputTokens := outputTokens s; buffer := buffer s;
     textBlockStarted := textBlockStarted s; currentBlockIndex := currentBlockIndex s;
     toolCalls := toolCalls s; toolBlocksStarted := toolBlocksStarted s |}.

Definition with_promise (p : Promise) (s : StreamState) : StreamState :=
  {| res := res s; promise := p; inputTokens := inputTokens s;
     outputTokens := outputTokens s; buffer := buffer s;
     textBlockStarted := textBlockStarted s; currentBlockIndex := currentBlockIndex s;
     toolCalls := toolCalls s; toolBlocksStarted := toolBlocksStarted s |}.

Definition with_tokens (i o : nat) (s : StreamState) : StreamState :=
  {| res := res s; promise := promise s; inputTokens := i;
     outputTokens := o; buffer := buffer s;
     textBlockStarted := textBlockStarted s; currentBlockIndex := currentBlockIndex s;
     toolCalls := toolCalls s; toolBlocksStarted := toolBlocksStarted s |}.

Definition with_buffer (b : string) (s : StreamState) : StreamState :=
  {| res := res s; promise := promise s; inputTokens := inputTokens s;
     outputTokens := outputTokens s; buffer := b;
     textBlockStarted := textBlockStarted s; currentBlockIndex := currentBlockIndex s;
     toolCalls := toolCalls s; toolBlocksStarted := toolBlocksStarted s |}.

Definition with_text (started : bool) (index : Z) (s : StreamState) : StreamState :=
  {| res := res s; promise := promise s; inputTokens := inputTokens s;
     outputTokens := outputTokens s; buffer := buffer s;
     textBlockStarted := started; currentBlockIndex := index;
     toolCalls := toolCalls s; toolBlocksStarted := toolBlocksStarted s |}.

Definition with_toolCalls (m : list (Z * ToolCall)) (s : StreamState) : StreamState :=
  {| res := res s; promise := promise s; inputTokens := inputTokens s;
     outputTokens := outputTokens s; buffer := buffer s;
     textBlockStarted := textBlockStarted s; currentBlockIndex := currentBlockIndex s;
     toolCalls := m; toolBlocksStarted := toolBlocksStarted s |}.

Definition with_toolBlocksStarted (b : gset Z) (s : StreamState) : StreamState :=
  {| res := res s; promise := promise s; inputTokens := inputTokens s;
     outputTokens := outputTokens s; buffer := buffer s;
     textBlockStarted := textBlockStarted s; currentBlockIndex := currentBlockIndex s;
     toolCalls := toolCalls s; toolBlocksStarted := b |}.

(** [res.write(sseEvent(...))], [res.end()], [resolve()], [reject(err)] *)
Definition write (f : Frame) (s : StreamState) : StreamState :=
  with_res (res_write (res s) f) s.

Definition end_response (s : StreamState) : StreamState :=
  with_res (res_end (res s)) s.

Definition settle (p : Promise) (s : StreamState) : StreamState :=
  match promise s with
  | pending => with_promise p s
  | _ => s
  end.

(** [toolCalls.get(i)] and [toolCalls.set(i, v)]: a key that is present
    keeps its place in the iteration order, a new key goes last. *)
Fixpoint Map_get (i : Z) (m : list (Z * ToolCall)) : option ToolCall :=
  match m with
  | [] => None
  | (k, v) :: m' => if Z.eqb k i then Some v else Map_get i m'
  end.

Fixpoint Map_set (i : Z) (v : ToolCall) (m : list (Z * ToolCall)) : list (Z * ToolCall) :=
  match m with
  | [] => [(i, v)]
  | (k, w) :: m' => if Z.eqb k i then (k, v) :: m' else (k, w) :: Map_set i v m'
  end.

(** ** Streaming: the transitions of [handleStreaming] *)

Definition stop_frame (index : Z) : Frame :=
  sseEvent "content_block_stop" (content_block_stop index).

(** [if (choice.finish_reason) { ... return; }] *)
Definition handle_finish (s : StreamState) (finish_reason : string) : StreamState :=
  let s1 := if textBlockStarted s then write (stop_frame (currentBlockIndex s)) s else s in
  let s2 :=
    fold_left
      (fun acc entry =>
         let blockIndex := (currentBlockIndex s + fst entry + 1)%Z in
         if bool_decide (blockIndex ∈ toolBlocksStarted s)
         then write (stop_frame blockIndex) acc
         else acc)
      (toolCalls s) s1 in
  let stopReason := if String.eqb finish_reason "tool_calls" then tool_use else end_turn in
  let s3 := write (sseEvent "message_delta" (message_delta stopReason (outputTokens s))) s2 in
  let s4 := write (sseEvent "message_stop" message_stop) s3 in
  settle resolved (end_response s4).

(** [if (delta.content) { ... }] *)
Definition handle_text (s : StreamState) (content : string) : StreamState :=
  let s1 :=
    if negb (textBlockStarted s)
    then with_text true (currentBlockIndex s)
           (write (sseEvent "content_block_start"
                     (content_block_start (currentBlockIndex s) (text_block ""))) s)
    else s in
  let s2 :=
    write (sseEvent "content_block_delta"
             (content_block_delta (currentBlockIndex s1) (text_delta content))) s1 in
  with_tokens (inputTokens s2) (S (outputTokens s2)) s2.

(** [if (textBlockStarted && !toolBlocksStarted.size) { ... }] *)
Definition close_text_for_tools (s : StreamState) : StreamState :=
  if textBlockStarted s && Nat.eqb (size (toolBlocksStarted s)) 0
  then with_text false (currentBlockIndex s + 1)%Z (write (stop_frame (currentBlockIndex s)) s)
  else s.

Definition fresh_toolCall (tc : ToolCallDelta) : ToolCall :=
  {| tc_id := or_str (tcd_id tc) ""; tc_name := ""; tc_arguments := "" |}.

(** The three conditional assignments to the accumulated tool call. *)
Definition merge_fragment (toolCall : ToolCall) (tc : ToolCallDelta) : ToolCall :=
  {| tc_id := or_str (tcd_id tc) (tc_id toolCall);
     tc_name := or_str (tcd_name tc) (tc_name toolCall);
     tc_arguments :=
       match tcd_arguments tc with
       | Some (String a args) => tc_arguments toolCall +:+ String a args
       | _ => tc_arguments toolCall
       end |}.

(** The upstream index of a fragment, [tc.index || 0]: any integer the
    backend sends, negative ones included; 0 when it is missing or 0. *)
Definition tcIndex_of (tc : ToolCallDelta) : Z := or_Z (tcd_index tc) 0.

Definition tool_start_frame (blockIndex : Z) (toolCall : ToolCall) : Frame :=
  sseEvent "content_block_start"
    (content_block_start blockIndex
       (tool_use_block (tc_id toolCall) (tc_name toolCall) empty_object)).

Definition tool_delta_frame (blockIndex : Z) (arguments : string) : Frame :=
  sseEvent "content_block_delta"
    (content_block_delta blockIndex (input_json_delta arguments)).

(** The body of [for (const tc of delta.tool_calls)]. *)
Definition handle_tool_call (s : StreamState) (tc : ToolCallDelta) : StreamState :=
  let tcIndex := tcIndex_of tc in
  let blockIndex := (currentBlockIndex s + tcIndex)%Z in
  let known :=
    match Map_get tcIndex (toolCalls s) with
    | Some toolCall => toolCall
    | None => fresh_toolCall tc
    end in
  let toolCall := merge_fragment known tc in
  let s1 := with_toolCalls (Map_set tcIndex toolCall (toolCalls s)) s in
  let s2 :=
    if negb (bool_decide (blockIndex ∈ toolBlocksStarted s1))
       && negb (String.eqb (tc_name toolCall) "")
    then with_toolBlocksStarted ({[blockIndex]} ∪ toolBlocksStarted s1)
           (write (tool_start_frame blockIndex toolCall) s1)
    else s1 in
  if truthy_str (tcd_arguments tc) && bool_decide (blockIndex ∈ toolBlocksStarted s2)
  then write (tool_delta_frame blockIndex (or_str (tcd_arguments tc) "")) s2
  else s2.

(** [if (delta.tool_calls) { ... }]: an empty array is truthy too. *)
Definition handle_tool_calls (s : StreamState) (tool_calls : list ToolCallDelta) : StreamState :=
  fold_left handle_tool_call tool_calls (close_text_for_tools s).

(** [if (data.usage) { ... }] *)
Definition handle_usage (s : StreamState) (usage : Usage) : StreamState :=
  with_tokens (or_nat (prompt_tokens usage) (inputTokens s))
              (or_nat (completion_tokens usage) (outputTokens s)) s.

(** [choice.delta || {}] *)
Definition empty_delta : Delta := {| d_content := None; d_tool_calls := None |}.

(** The body of the [try] once [JSON.parse] has returned [data]. The
    boolean tells whether the handler returned from the [data] callback. *)
Definition handle_event (s : StreamState) (data : StreamChunk) : StreamState * bool :=
  match nullish (ch_choices data) [] with
  | [] => (s, false)
  | choice :: _ =>
      let delta := nullish (sc_delta choice) empty_delta in
      if truthy_str (sc_finish_reason choice)
      then (handle_finish s (or_str (sc_finish_reason choice) ""), true)
      else
        let s1 :=
          if truthy_str (d_content delta)
          then handle_text s (or_str (d_content delta) "")
          else s in
        let s2 :=
          match d_tool_calls delta with
          | Some tool_calls => handle_tool_calls s1 tool_calls
          | None => s1
          end in
        let s3 :=
          match ch_usage data with
          | Some usage => handle_usage s2 usage
          | None => s2
          end in
        (s3, false)
  end.

Inductive Closing := stream_end | stream_error.

(** What the backend does with the request: it fails before any response,
    or delivers chunks and then ends or errors. *)
Inductive Backend :=
| request_error
| response (chunks : list Buffer) (closing : Closing).

Section Streaming.

(** [JSON.parse] on the payload of a data line: [None] when it throws
    (or when reading [data.choices] does, for [null]). *)
Variable JSON_parse : string -> option StreamChunk.

(** One iteration of [for (const line of lines)]. *)
Definition handle_line (s : StreamState) (line : string) : StreamState * bool :=
  if negb (startsWith line "data: ") then (s, false)
  else
    let dataStr := trim (slice 6 line) in
    if String.eqb dataStr "[DONE]" then (s, false)
    else
      match JSON_parse dataStr with
      | None => (s, false)
      | Some data => handle_event s data
      end.

Fixpoint handle_lines (s : StreamState) (lines : list string) : StreamState :=
  match lines with
  | [] => s
  | line :: rest =>
      let '(s', returned) := handle_line s line in
      if returned then s' else handle_lines s' rest
  end.

(** The [data] callback, from the decoded text of the chunk on. *)
Definition on_text (s : StreamState) (text : string) : StreamState :=
  let pieces := split_nl (buffer s +:+ text) in
  handle_lines (with_buffer (List.last pieces "") s) (List.removelast pieces).

(** [azureRes.on('data', (chunk: Buffer) => ...)] *)
Definition on_data (s : StreamState) (chunk : Buffer) : StreamState :=
  on_text s (Buffer_toString chunk).

(** [azureRes.on('end', ...)] and [azureRes.on('error', ...)] *)
Definition on_close (s : StreamState) (closing : Closing) : StreamState :=
  match closing with
  | stream_end =>
      settle resolved (if writableEnded (res s) then s else end_response s)
  | stream_error => settle rejected (end_response s)
  end.

Definition message_start_frame (msgId model : string) : Frame :=
  sseEvent "message_start" (message_start msgId model 0 0).

(** The state once [message_start] is written, before the backend is
    contacted. [now] is the text of [Date.now()]. *)
Definition initial (anthropicReq : AnthropicRequest) (now : string) : StreamState :=
  {| res := {| sent := [message_start_frame ("msg_" +:+ now) (ar_model anthropicReq)];
               writableEnded := false |};
     promise := pending;
     inputTokens := 0;
     outputTokens := 0;
     buffer := "";
     textBlockStarted := false;
     currentBlockIndex := 0;
     toolCalls := [];
     toolBlocksStarted := ∅ |}.

Definition handleStreaming (anthropicReq : AnthropicRequest) (now : string)
    (backend : Backend) : StreamState :=
  match backend with
  | request_error => settle rejected (end_response (initial anthropicReq now))
  | response chunks closing =>
      on_close (fold_left on_data chunks (initial anthropicReq now)) closing
  end.

End Streaming.

(** ** The non-streaming path: what [handleNonStreaming] reads and writes *)

Record ToolCallMessage := {
  tcm_id : option string;
  tcm_function : option FunctionDelta
}.

Record BackendMessage := {
  bm_content : option string;
  bm_tool_calls : option (list ToolCallMessage)
}.

Record Choice := {
  c_message : option BackendMessage;
  c_finish_reason : option string
}.

Record Completion := {
  cp_choices : option (list Choice);
  cp_usage : option Usage
}.

Inductive ContentBlock :=
| Text (text : string)
| ToolUse (id name : option string) (input : json).

Record AnthropicResponse := {
  rsp_id : string;
  rsp_content : list ContentBlock;
  rsp_model : string;
  rsp_stop_reason : StopReason;
  rsp_input_tokens : nat;
  rsp_output_tokens : nat
}.

Inductive Body :=
| message_body (message : AnthropicResponse)
| error_body (error : string).

Record HttpResponse := {
  status : nat;
  content_type : string;
  body : Body
}.

(** A computation that returns or throws an [Error] with a message. *)
Inductive Completed (A : Type) :=
| returned (a : A)
| thrown (message : string).
Arguments returned {A} a.
Arguments thrown {A} message.

#[global] Instance Completed_ret : MRet Completed := fun A a => returned a.

#[global] Instance Completed_bind : MBind Completed := fun A B k c =>
  match c with
  | returned a => k a
  | thrown m => thrown m
  end.

Inductive NonStreamingBackend :=
| ns_request_error (message : string)
| ns_response (chunks : list Buffer).

(** [body += chunk.toString()] over the chunks of the response. *)
Definition body_text (chunks : list Buffer) : string :=
  fold_left (fun acc chunk => acc +:+ Buffer_toString chunk) chunks "".

Section NonStreaming.

(** [JSON.parse(body)]: the parsed completion, or the message of the
    error thrown. *)
Variable JSON_parse_body : string -> Completed Completion.

(** [JSON.parse] on a tool call's argument text: [None] when it throws. *)
Variable JSON_parse_value : string -> option json.

(** The body of [for (const tc of choice.message.tool_calls)]. When
    [function] is missing, reading [tc.function.arguments] throws inside the
    inner [try], whose [catch] sets the input to [{}]; reading
    [tc.function.name] then throws outside of it. *)
Definition tool_use_of (tc : ToolCallMessage) : Completed ContentBlock :=
  let input :=
    match tcm_function tc with
    | Some fn =>
        match JSON_parse_value (or_str (fd_arguments fn) "{}") with
        | Some value => value
        | None => empty_object
        end
    | None => empty_object
    end in
  match tcm_function tc with
  | Some fn => returned (ToolUse (tcm_id tc) (fd_name fn) input)
  | None => thrown "Cannot read properties of undefined (reading 'name')"
  end.

Fixpoint tool_uses_of (tool_calls : list ToolCallMessage) : Completed (list ContentBlock) :=
  match tool_calls with
  | [] => returned []
  | tc :: rest =>
      block ← tool_use_of tc;
      blocks ← tool_uses_of rest;
      returned (block :: blocks)
  end.

(** The [try] block of the [end] callback. *)
Definition translate_body (anthropicReq : AnthropicRequest) (now : string)
    (text : string) : Completed AnthropicResponse :=
  data ← JSON_parse_body text;
  match nullish (cp_choices data) [] with
  | [] => thrown "No response from Azure"
  | choice :: _ =>
      let text_blocks :=
        match c_message choice ≫= bm_content with
        | Some (String a t) => [Text (String a t)]
        | _ => []
        end in
      tool_blocks ←
        match c_message choice ≫= bm_tool_calls with
        | Some tool_calls => tool_uses_of tool_calls
        | None => returned []
        end;
      returned
        {| rsp_id := "msg_" +:+ now;
           rsp_content := text_blocks ++ tool_blocks;
           rsp_model := ar_model anthropicReq;
           rsp_stop_reason :=
             if String.eqb (or_str (c_finish_reason choice) "") "tool_calls"
             then tool_use else end_turn;
           rsp_input_tokens := or_nat (cp_usage data ≫= prompt_tokens) 0;
           rsp_output_tokens := or_nat (cp_usage data ≫= completion_tokens) 0 |}
  end.

Definition error_response (message : string) : HttpResponse :=
  {| status := 500; content_type := "application/json"; body := error_body message |}.

(** The response written to the client and how the promise settles. *)
Definition handleNonStreaming (anthropicReq : AnthropicRequest) (now : string)
    (backend : NonStreamingBackend) : HttpResponse * Promise :=
  match backend with
  | ns_request_error message => (error_response message, rejected)
  | ns_response chunks =>
      match translate_body anthropicReq now (body_text chunks) with
      | returned message =>
          ({| status := 200; content_type := "application/json";
              body := message_body message |}, resolved)
      | thrown message => (error_response message, rejected)
      end
  end.

End NonStreaming.

(** ** Concrete backend data

    Payloads are written with apostrophes for the JSON quotes; [json_text]
    puts the quotes back. [parse_table] is [JSON.parse] on the payloads of
    a table, which gives for each of them the value it returns; any other
    text is taken as one on which it throws. *)

Definition json_text (s : string) : string :=
  string_of_list_ascii
    (map (fun c => if Ascii.eqb c "'"%char then ascii_of_nat 34 else c)
         (list_ascii_of_string s)).

Definition parse_table {A} (table : list (string * A)) (payload : string) : option A :=
  snd <$> find (fun entry => String.eqb (fst entry) payload) table.

Definition text_chunk (content : string) : StreamChunk :=
  {| ch_choices :=
       Some [ {| sc_delta := Some {| d_content := Some content; d_tool_calls := None |};
                 sc_finish_reason := None |} ];
     ch_usage := None |}.

Definition tool_chunk (fragments : list ToolCallDelta) : StreamChunk :=
  {| ch_choices :=
       Some [ {| sc_delta := Some {| d_content := None; d_tool_calls := Some fragments |};
                 sc_finish_reason := None |} ];
     ch_usage := None |}.

Definition finish_chunk (reason : string) : StreamChunk :=
  {| ch_choices := Some [ {| sc_delta := Some empty_delta; sc_finish_reason := Some reason |} ];
     ch_usage := None |}.

Definition usage_chunk (prompt completion : nat) : StreamChunk :=
  {| ch_choices := Some [];
     ch_usage := Some {| prompt_tokens := Some prompt; completion_tokens := Some completion |} |}.

Definition named_fragment : ToolCallDelta :=
  {| tcd_index := Some 0%Z; tcd_id := Some "call_1";
     tcd_function := Some {| fd_name := Some "get_weather"; fd_arguments := Some "" |} |}.

Definition second_fragment : ToolCallDelta :=
  {| tcd_index := Some 1%Z; tcd_id := Some "call_2";
     tcd_function := Some {| fd_name := Some "get_time"; fd_arguments := Some "" |} |}.

Definition arguments_fragment (arguments : string) : ToolCallDelta :=
  {| tcd_index := Some 0%Z; tcd_id := None;
     tcd_function := Some {| fd_name := None; fd_arguments := Some arguments |} |}.

(** The two bytes of U+00E9 and the three bytes of U+FFFD. *)
Definition e_acute : string := str_of_bytes [xc3; xa9].
Definition replacement_char : string := str_of_bytes Utf8.replacement.

Definition content_payload (content : string) : string :=
  json_text "{'choices':[{'delta':{'content':'" +:+ content +:+ json_text "'}}]}".

Definition payload_named : string :=
  json_text "{'choices':[{'delta':{'tool_calls':[{'index':0,'id':'call_1','function':{'name':'get_weather','arguments':''}}]}}]}".

Definition payload_second : string :=
  json_text "{'choices':[{'delta':{'tool_calls':[{'index':1,'id':'call_2','function':{'name':'get_time','arguments':''}}]}}]}".

Definition payload_early_arguments : string :=
  json_text "{'choices':[{'delta':{'tool_calls':[{'index':0,'function':{'arguments':'{\'city\''}}]}}]}".

Definition payload_late_arguments : string :=
  json_text "{'choices':[{'delta':{'tool_calls':[{'index':0,'function':{'arguments':':1}'}}]}}]}".

Definition payload_finish (reason : string) : string :=
  json_text "{'choices':[{'delta':{},'finish_reason':'" +:+ reason +:+ json_text "'}]}".

Definition payload_usage : string :=
  json_text "{'choices':[],'usage':{'prompt_tokens':5,'completion_tokens':7}}".

Definition demo_JSON_parse : string -> option StreamChunk :=
  parse_table
    [ (content_payload "Hel", text_chunk "Hel");
      (content_payload "lo", text_chunk "lo");
      (content_payload e_acute, text_chunk e_acute);
      (content_payload (replacement_char +:+ replacement_char),
       text_chunk (replacement_char +:+ replacement_char));
      (payload_named, tool_chunk [named_fragment]);
      (payload_second, tool_chunk [second_fragment]);
      (payload_early_arguments, tool_chunk [arguments_fragment (json_text "{'city'")]);
      (payload_late_arguments, tool_chunk [arguments_fragment ":1}"]);
      (payload_finish "stop", finish_chunk "stop");
      (payload_finish "tool_calls", finish_chunk "tool_calls");
      (payload_usage, usage_chunk 5 7) ].

(** A data line of the backend stream, as bytes. *)
Definition data_line (payload : string) : Buffer :=
  list_byte_of_string ("data: " +:+ payload +:+ String "010" "").

Definition demo_request : AnthropicRequest :=
  {| ar_model := "claude-sonnet-x";
     ar_messages := [ {| am_role := user; am_content := ContentString "Hi" |} ];
     ar_system := None;
     ar_max_tokens := None;
     ar_temperature := None;
     ar_stream := Some true;
     ar_tools := None |}.

Definition demo_azure : AzureConfig :=
  {| endpoint := "https://example.openai.azure.com";
     apiKey := "key";
     apiVersion := "2024-12-01-preview";
     deployments := {| opus := "gpt-4o"; sonnet := "gpt-4o"; haiku := "gpt-4o-mini" |} |}.

Definition payload_no_choices : string := json_text "{'choices':[]}".

Definition payload_bad_arguments : string :=
  json_text "{'choices':[{'message':{'content':null,'tool_calls':[{'id':'call_1','type':'function','function':{'name':'get_weather','arguments':'{bad json'}}]},'finish_reason':'tool_calls'}]}".

Definition completion_bad_arguments : Completion :=
  {| cp_choices :=
       Some [ {| c_message :=
                   Some {| bm_content := None;
                           bm_tool_calls :=
                             Some [ {| tcm_id := Some "call_1";
                                       tcm_function :=
                                         Some {| fd_name := Some "get_weather";
                                                 fd_arguments := Some "{bad json" |} |} ] |};
                 c_finish_reason := Some "tool_calls" |} ];
     cp_usage := None |}.

(** Any text outside the table is taken to be the empty body, on which
    [JSON.parse] throws with the message below. *)
Definition demo_JSON_parse_body (text : string) : Completed Completion :=
  match parse_table
          [ (payload_no_choices, {| cp_choices := Some []; cp_usage := None |});
            (payload_bad_arguments, completion_bad_arguments) ] text with
  | Some data => returned data
  | None => thrown "Unexpected end of JSON input"
  end.

Definition demo_JSON_parse_value : string -> option json :=
  parse_table
    [ ("{}", empty_object);
      (json_text "{'city':'Paris'}", JObject [("city", JString "Paris")]) ].


Definition zero_request : AnthropicRequest :=
  {| ar_model := "claude-sonnet-x";
     ar_messages := [ {| am_role := user; am_content := ContentString "Hi" |} ];
     ar_system := None;
     ar_max_tokens := Some 0%Z;
     ar_temperature := Some 0%Q;
     ar_stream := None;
     ar_tools := None |}.

Definition full_fragment : ToolCallDelta :=
  {| tcd_index := Some 0%Z; tcd_id := Some "call_1";
     tcd_function := Some {| fd_name := Some "get_weather"; fd_arguments := Some "{" |} |}.

(** The line [data: {"choices":[{"delta":{"content":"é"}}]}] cut between
    the two bytes of its non-ASCII character. *)
Definition split_first : Buffer :=
  list_byte_of_string ("data: " +:+ json_text "{'choices':[{'delta':{'content':'") ++ [xc3].

Definition split_second : Buffer :=
  [xa9] ++ list_byte_of_string (json_text "'}}]}" +:+ String "010" "").

(** ** The HTTP surface of [createProxy]

    [req.method] and [req.url] may be [undefined]. The handler answers the
    first three routes itself and hands the last one to the translators. *)

Inductive Route := preflight | health_check | not_found | messages_endpoint.

(** [req.method === m], [req.url === u] *)
Definition is_string (o : option string) (m : string) : bool :=
  match o with
  | Some s => String.eqb s m
  | None => false
  end.

(** [req.url?.includes('/messages')]: [undefined] is falsy. *)
Definition url_includes (url : option string) (sub : string) : bool :=
  match url with
  | Some u => includes u sub
  | None => false
  end.

Definition route (method url : option string) : Route :=
  if is_string method "OPTIONS" then preflight
  else if is_string url "/health" then health_check
  else if negb (is_string method "POST") || negb (url_includes url "/messages")
       then not_found
  else messages_endpoint.

Record Reply := {
  rp_status : nat;
  rp_headers : list (string * string);
  rp_body : string
}.

(** The three [res.setHeader] calls made before any routing. *)
Definition cors_headers : list (string * string) :=
  [ ("Access-Control-Allow-Origin", "*");
    ("Access-Control-Allow-Methods", "GET, POST, OPTIONS");
    ("Access-Control-Allow-Headers", "*") ].

(** The reply of the routes that [createProxy] answers without a backend. *)
Definition direct_reply (r : Route) : option Reply :=
  match r with
  | preflight => Some {| rp_status := 204; rp_headers := cors_headers; rp_body := "" |}
  | health_check =>
      Some {| rp_status := 200;
              rp_headers := cors_headers ++ [("Content-Type", "application/json")];
              rp_body := json_text "{'status':'ok'}" |}
  | not_found => Some {| rp_status := 404; rp_headers := cors_headers; rp_body := "Not found" |}
  | messages_endpoint => None
  end.

(** ** Configuration store (config.ts)

    The [Conf] store holds a value or nothing under each of the four keys
    the module uses. *)

Inductive Provider := provider_azure | provider_openai | provider_anthropic.

Record OpenAIConfig := {
  oc_apiKey : string;
  oc_baseUrl : string
}.

Record AnthropicConfig := {
  ac_apiKey : string
}.

Record AppConfig := {
  cfg_provider : Provider;
  cfg_azure : option AzureConfig;
  cfg_openai : option OpenAIConfig;
  cfg_anthropic : option AnthropicConfig
}.

Record Store := {
  st_provider : option Provider;
  st_azure : option AzureConfig;
  st_openai : option OpenAIConfig;
  st_anthropic : option AnthropicConfig
}.

Definition empty_store : Store :=
  {| st_provider := None; st_azure := None; st_openai := None; st_anthropic := None |}.

Definition getConfig (config : Store) : option AppConfig :=
  match st_provider config with
  | None => None
  | Some provider =>
      Some {| cfg_provider := provider;
              cfg_azure := st_azure config;
              cfg_openai := st_openai config;
              cfg_anthropic := st_anthropic config |}
  end.

(** [if (newConfig.x) config.set('x', newConfig.x)]: a section that is
    absent from [newConfig] is left as stored. *)
Definition keep_or_set {A} (new stored : option A) : option A :=
  match new with
  | Some a => Some a
  | None => stored
  end.

Definition setConfig (newConfig : AppConfig) (config : Store) : Store :=
  {| st_provider := Some (cfg_provider newConfig);
     st_azure := keep_or_set (cfg_azure newConfig) (st_azure config);
     st_openai := keep_or_set (cfg_openai newConfig) (st_openai config);
     st_anthropic := keep_or_set (cfg_anthropic newConfig) (st_anthropic config) |}.

Definition configExists (config : Store) : bool :=
  match st_provider config with
  | Some _ => true
  | None => false
  end.

Definition clearConfig (config : Store) : Store := empty_store.

Definition demo_azure_config : AppConfig :=
  {| cfg_provider := provider_azure; cfg_azure := Some demo_azure;
     cfg_openai := None; cfg_anthropic := None |}.

Definition demo_anthropic_config : AppConfig :=
  {| cfg_provider := provider_anthropic; cfg_azure := None; cfg_openai := None;
     cfg_anthropic := Some {| ac_apiKey := "sk-ant-1" |} |}.

(** A reply with text and a tool call whose arguments are valid JSON. *)
Definition payload_weather : string :=
  json_text "{'choices':[{'message':{'content':'Sure','tool_calls':[{'id':'call_1','type':'function','function':{'name':'get_weather','arguments':'{\'city\':\'Paris\'}'}}]},'finish_reason':'tool_calls'}],'usage':{'prompt_tokens':9,'completion_tokens':4}}".

Definition completion_weather : Completion :=
  {| cp_choices :=
       Some [ {| c_message :=
                   Some {| bm_content := Some "Sure";
                           bm_tool_calls :=
                             Some [ {| tcm_id := Some "call_1";
                                       tcm_function :=
                                         Some {| fd_name := Some "get_weather";
                                                 fd_arguments :=
                                                   Some (json_text "{'city':'Paris'}") |} |} ] |};
                 c_finish_reason := Some "tool_calls" |} ];
     cp_usage := Some {| prompt_tokens := Some 9; completion_tokens := Some 4 |} |}.

Definition demo_JSON_parse_reply (text : string) : Completed Completion :=
  match parse_table [ (payload_weather, completion_weather) ] text with
  | Some data => returned data
  | None => thrown "Unexpected end of JSON input"
  end.

(** A backend that never reports usage. *)
Definition demo_JSON_parse_plain : string -> option StreamChunk :=
  parse_table
    [ (content_payload "Hel", text_chunk "Hel");
      (content_payload "lo", text_chunk "lo");
      (payload_finish "stop", finish_chunk "stop") ].


(** Tool-call fragments with a name and arguments in one event; the second
    has arguments that are not valid JSON, the third a negative index. *)
Definition payload_full : string :=
  json_text "{'choices':[{'delta':{'tool_calls':[{'index':0,'id':'call_1','function':{'name':'get_weather','arguments':'{'}}]}}]}".

Definition bad_fragment : ToolCallDelta :=
  {| tcd_index := Some 0%Z; tcd_id := Some "call_1";
     tcd_function := Some {| fd_name := Some "get_weather";
                             fd_arguments := Some "{bad json" |} |}.

Definition payload_bad_fragment : string :=
  json_text "{'choices':[{'delta':{'tool_calls':[{'index':0,'id':'call_1','function':{'name':'get_weather','arguments':'{bad json'}}]}}]}".

Definition minus_fragment : ToolCallDelta :=
  {| tcd_index := Some (-1)%Z; tcd_id := Some "call_0";
     tcd_function := Some {| fd_name := Some "get_time"; fd_arguments := Some "" |} |}.

Definition payload_minus : string :=
  json_text "{'choices':[{'delta':{'tool_calls':[{'index':-1,'id':'call_0','function':{'name':'get_time','arguments':''}}]}}]}".

Definition demo_JSON_parse_tools : string -> option StreamChunk :=
  parse_table
    [ (content_payload "Hel", text_chunk "Hel");
      (payload_named, tool_chunk [named_fragment]);
      (payload_second, tool_chunk [second_fragment]);
      (payload_full, tool_chunk [full_fragment]);
      (payload_bad_fragment, tool_chunk [bad_fragment]);
      (payload_minus, tool_chunk [minus_fragment]);
      (payload_finish "stop", finish_chunk "stop");
      (payload_finish "tool_calls", finish_chunk "tool_calls") ].

(** A reply whose tool call has no [function]. *)
Definition payload_nameless : string :=
  json_text "{'choices':[{'message':{'content':null,'tool_calls':[{'id':'call_1','type':'function'}]},'finish_reason':'tool_calls'}]}".

Definition demo_JSON_parse_nameless (text : string) : Completed Completion :=
  match parse_table
          [ (payload_nameless,
             {| cp_choices :=
                  Some [ {| c_message :=
                              Some {| bm_content := None;
                                      bm_tool_calls :=
                                        Some [ {| tcm_id := Some "call_1";
                                                  tcm_function := None |} ] |};
                            c_finish_reason := Some "tool_calls" |} ];
                cp_usage := None |}) ] text with
  | Some data => returned data
  | None => thrown "Unexpected end of JSON input"
  end.
(** ** Predicates used in the statements *)

(** [s] contains [sub] as a substring. *)
Definition contains (s sub : string) : Prop :=
  exists pre post, s = pre +:+ sub +:+ post.

(** The frames delivered to the client and whether the response is ended. *)
Definition out (s : StreamState) : list Frame := sent (res s).
Definition closed (s : StreamState) : bool := writableEnded (res s).

Definition write_all (frames : list Frame) (s : StreamState) : StreamState :=
  fold_left (fun acc f => write f acc) frames s.

(** The [content_block_stop] frames of the finish branch, in the order the
    code writes them. *)
Definition tool_stops (s : StreamState) : list Frame :=
  map stop_frame
    (List.filter (fun blockIndex => bool_decide (blockIndex ∈ toolBlocksStarted s))
       (map (fun entry => (currentBlockIndex s + fst entry + 1)%Z) (toolCalls s))).

Definition finish_stops (s : StreamState) : list Frame :=
  (if textBlockStarted s then [stop_frame (currentBlockIndex s)] else [])
  ++ tool_stops s.

Definition message_delta_frame (reason : string) (tokens : nat) : Frame :=
  sseEvent "message_delta"
    (message_delta (if String.eqb reason "tool_calls" then tool_use else end_turn) tokens).

Definition message_stop_frame : Frame := sseEvent "message_stop" message_stop.

(** The transitions a [data] callback is made of. *)
Inductive step : StreamState -> StreamState -> Prop :=
| step_text s content : step s (handle_text s content)
| step_close_text s : step s (close_text_for_tools s)
| step_tool_call s tc : step s (handle_tool_call s tc)
| step_usage s usage : step s (handle_usage s usage)
| step_finish s reason : step s (handle_finish s reason)
| step_buffer s b : step s (with_buffer b s).

(** The states a streaming request can be in while backend data arrives. *)
Definition reachable (anthropicReq : AnthropicRequest) (now : string) (s : StreamState) : Prop :=
  rtc step (initial anthropicReq now) s.

(** The name accumulated so far for an upstream tool-call index. *)
Definition name_so_far (s : StreamState) (tcIndex : Z) : string :=
  match Map_get tcIndex (toolCalls s) with
  | Some toolCall => tc_name toolCall
  | None => ""
  end.


(** The frames of a content block: start, delta or stop. *)
Definition block_frame (f : Frame) : Prop :=
  match data f with
  | content_block_start _ _ | content_block_delta _ _ | content_block_stop _ => True
  | _ => False
  end.





(** What [handle_tool_call] computes for a fragment: the accumulated tool
    call after the merge, whether the block is started by this fragment,
    the started set afterwards and the frames written. *)
Definition merged (s : StreamState) (tc : ToolCallDelta) : ToolCall :=
  merge_fragment
    (match Map_get (tcIndex_of tc) (toolCalls s) with
     | Some toolCall => toolCall
     | None => fresh_toolCall tc
     end) tc.

Definition starts_block (s : StreamState) (tc : ToolCallDelta) : bool :=
  negb (bool_decide ((currentBlockIndex s + tcIndex_of tc)%Z ∈ toolBlocksStarted s))
  && negb (String.eqb (tc_name (merged s tc)) "").

Definition started_after (s : StreamState) (tc : ToolCallDelta) : gset Z :=
  if starts_block s tc
  then {[(currentBlockIndex s + tcIndex_of tc)%Z]} ∪ toolBlocksStarted s
  else toolBlocksStarted s.

Definition tool_frames (s : StreamState) (tc : ToolCallDelta) : list Frame :=
  (if starts_block s tc
   then [tool_start_frame (currentBlockIndex s + tcIndex_of tc)%Z (merged s tc)] else [])
  ++ (if truthy_str (tcd_arguments tc)
         && bool_decide ((currentBlockIndex s + tcIndex_of tc)%Z ∈ started_after s tc)
      then [tool_delta_frame (currentBlockIndex s + tcIndex_of tc)%Z
              (or_str (tcd_arguments tc) "")]
      else []).

(** The started block indices are those of the upstream indices that have a
    name, offset by the block cursor. *)
Definition tools_indexed (s : StreamState) : Prop :=
  forall k, k ∈ toolBlocksStarted s <->
            exists i, name_so_far s i <> "" /\ k = (currentBlockIndex s + i)%Z.

(** The transitions by name, with the frames each one writes. *)
Inductive Transition :=
| t_text (content : string)
| t_close_text
| t_tool_call (tc : ToolCallDelta)
| t_usage (usage : Usage)
| t_finish (reason : string)
| t_buffer (b : string).

Definition apply_transition (t : Transition) (s : StreamState) : StreamState :=
  match t with
  | t_text content => handle_text s content
  | t_close_text => close_text_for_tools s
  | t_tool_call tc => handle_tool_call s tc
  | t_usage usage => handle_usage s usage
  | t_finish reason => handle_finish s reason
  | t_buffer b => with_buffer b s
  end.

Definition text_frames (s : StreamState) (content : string) : list Frame :=
  (if textBlockStarted s then []
   else [sseEvent "content_block_start"
           (content_block_start (currentBlockIndex s) (text_block ""))])
  ++ [sseEvent "content_block_delta"
        (content_block_delta (currentBlockIndex s) (text_delta content))].

Definition writes (t : Transition) (s : StreamState) : list Frame :=
  match t with
  | t_text content => text_frames s content
  | t_close_text =>
      if textBlockStarted s && Nat.eqb (size (toolBlocksStarted s)) 0
      then [stop_frame (currentBlockIndex s)] else []
  | t_tool_call tc => tool_frames s tc
  | t_finish reason =>
      finish_stops s ++ [message_delta_frame reason (outputTokens s); message_stop_frame]
  | t_usage _ | t_buffer _ => []
  end.

Definition finishes (t : Transition) : bool :=
  match t with
  | t_finish _ => true
  | _ => false
  end.



(** A counter after a usage object: a reported count that is present and
    not zero replaces the running value, otherwise the running value stays. *)
Definition reported (count : option nat) (running after : nat) : Prop :=
  match count with
  | Some (S n) => after = S n
  | Some 0 | None => after = running
  end.

(** The complete lines of a text and the incomplete line after them. *)
Definition lines_of (text : string) : list string := List.removelast (split_nl text).
Definition rest_of (text : string) : string := List.last (split_nl text) "".

(** The decoded texts of the chunks, one after the other. *)
Definition text_of (texts : list string) : string := fold_right String.append "" texts.

(** A data line whose payload parses to an event with a finish reason in
    its first choice. *)
Definition finish_line (JSON_parse : string -> option StreamChunk) (line : string) : bool :=
  startsWith line "data: "
  && negb (String.eqb (trim (slice 6 line)) "[DONE]")
  && match JSON_parse (trim (slice 6 line)) with
     | Some data =>
         match nullish (ch_choices data) [] with
         | choice :: _ => truthy_str (sc_finish_reason choice)
         | [] => false
         end
     | None => false
     end.

(** Whether the backend delivers a complete line with a finish reason. *)
Definition finish_received (JSON_parse : string -> option StreamChunk)
    (backend : Backend) : bool :=
  match backend with
  | request_error => false
  | response chunks _ =>
      existsb (finish_line JSON_parse) (lines_of (text_of (map Buffer_toString chunks)))
  end.

(** Every line handled in turn, whatever the handler returns. *)
Definition drain (JSON_parse : string -> option StreamChunk)
    (s : StreamState) (lines : list string) : StreamState :=
  fold_left (fun acc line => (handle_line JSON_parse acc line).1) lines s.

(** The [data] callback on the whole text at once. *)
Definition on_whole_text (JSON_parse : string -> option StreamChunk)
    (s : StreamState) (text : string) : StreamState :=
  with_buffer (rest_of (buffer s +:+ text))
    (drain JSON_parse s (lines_of (buffer s +:+ text))).

(** Two states the client cannot tell apart: same response, same pending
    line, and identical while the response is open. *)
Definition same_output (s t : StreamState) : Prop :=
  res s = res t /\ buffer s = buffer t /\ (closed s = false -> s = t).

(** The outbound sequence is [first], block frames, and, once a finish
    reason has closed the response, [message_delta] and [message_stop]. *)
Definition shaped (first : Frame) (s : StreamState) : Prop :=
  exists body,
    Forall block_frame body /\
    ((closed s = false /\ out s = first :: body) \/
     (closed s = true /\
      exists reason tokens,
        out s = first :: body ++ [message_delta_frame reason tokens; message_stop_frame])).

(** A chunk of ASCII bytes only. *)
Definition ascii_only (chunk : Buffer) : Prop :=
  Forall (fun b => (Byte.to_N b <=? 127)%N = true) chunk.

(** The backend text of one inbound message content. *)
Definition flattened (c : InContent) : string :=
  match convertMessages [ {| am_role := user; am_content := c |} ] None with
  | m :: _ => om_content m
  | [] => ""
  end.

Definition is_text (b : InBlock) : bool := String.eqb (blk_type b) "text".

(** The schema a tool gets when it brings none. *)
Definition default_schema : json :=
  JObject [("type", JString "object"); ("properties", JObject [])].

(** A parsed completion the non-streaming translator can answer: it has a
    first choice, and each tool call of that choice has its [function]. *)
Definition answerable (data : Completion) : Prop :=
  exists choice rest,
    nullish (cp_choices data) [] = choice :: rest /\
    forall tool_calls,
      c_message choice ≫= bm_tool_calls = Some tool_calls ->
      Forall (fun tc => tcm_function tc <> None) tool_calls.

Definition ok_response (message : AnthropicResponse) : HttpResponse :=
  {| status := 200; content_type := "application/json"; body := message_body message |}.

(** The tool_use block of a tool call: the parsed arguments as input, the
    empty object when they do not parse. *)
Definition tool_use_for (JSON_parse_value : string -> option json)
    (tc : ToolCallMessage) (block : ContentBlock) : Prop :=
  exists fn,
    tcm_function tc = Some fn /\
    block = ToolUse (tcm_id tc) (fd_name fn)
              (match JSON_parse_value (or_str (fd_arguments fn) "{}") with
               | Some value => value
               | None => empty_object
               end).

(** Block frames by kind and index. *)
Definition stop_at (f : Frame) (index : Z) : Prop :=
  data f = content_block_stop index.

Definition start_at (f : Frame) (index : Z) : Prop :=
  exists block, data f = content_block_start index block.

Definition text_delta_at (f : Frame) (index : Z) : Prop :=
  exists text, data f = content_block_delta index (text_delta text).

Definition text_started_in (frames : list Frame) (index : Z) : Prop :=
  exists f text, In f frames /\ data f = content_block_start index (text_block text).

(** After the stop of a block, no block starts at its index or below. *)
Definition never_reopened (frames : list Frame) : Prop :=
  forall pre f post g k i,
    frames = pre ++ f :: post -> stop_at f k -> In g post -> start_at g i -> (k < i)%Z.

(** No [text_delta] comes before the start of a text block at its index. *)
Definition text_deltas_follow_starts (frames : list Frame) : Prop :=
  forall pre f post index,
    frames = pre ++ f :: post -> text_delta_at f index -> text_started_in pre index.

(** While the text block is open, its start has been delivered at the
    block cursor. *)
Definition text_ok (s : StreamState) : Prop :=
  text_deltas_follow_starts (out s) /\
  (closed s = false -> textBlockStarted s = true ->
   text_started_in (out s) (currentBlockIndex s)).

(** The tool-call fragments the handler reads from a parsed chunk. *)
Definition fragments_of (data : StreamChunk) : list ToolCallDelta :=
  match nullish (ch_choices data) [] with
  | choice :: _ => nullish (d_tool_calls (nullish (sc_delta choice) empty_delta)) []
  | [] => []
  end.

(** A backend whose tool-call indices are never negative. *)
Definition indices_from_zero (JSON_parse : string -> option StreamChunk) : Prop :=
  forall payload data,
    JSON_parse payload = Some data ->
    Forall (fun tc => (0 <= tcIndex_of tc)%Z) (fragments_of data).

(** A transition other than a tool call with a negative index. *)
Definition from_zero (s s' : StreamState) : Prop :=
  exists t, (forall tc, t = t_tool_call tc -> (0 <= tcIndex_of tc)%Z) /\
            s' = apply_transition t s.

(** The stops delivered so far are all below the block cursor. *)
Definition stops_ok (s : StreamState) : Prop :=
  never_reopened (out s) /\
  (closed s = false ->
   forall f k, In f (out s) -> stop_at f k -> (k < currentBlockIndex s)%Z).

(** The number of [text_delta] frames among [frames]. *)
Definition is_text_delta (f : Frame) : bool :=
  match data f with
  | content_block_delta _ (text_delta _) => true
  | _ => false
  end.

Definition text_deltas (frames : list Frame) : nat :=
  length (List.filter is_text_delta frames).

(** Every [message_delta] among [frames] reports [count] plus the number
    of text deltas before it. *)
Fixpoint counts_deltas (count : nat) (frames : list Frame) : bool :=
  match frames with
  | [] => true
  | f :: rest =>
      match data f with
      | message_delta _ tokens => Nat.eqb tokens count && counts_deltas count rest
      | content_block_delta _ (text_delta _) => counts_deltas (S count) rest
      | _ => counts_deltas count rest
      end
  end.

(** A transition other than the usage one. *)
Definition usage_free (s s' : StreamState) : Prop :=
  exists t, (forall usage, t <> t_usage usage) /\ s' = apply_transition t s.

Definition tokens_ok (s : StreamState) : Prop :=
  counts_deltas 0 (out s) = true /\
  (closed s = false -> outputTokens s = text_deltas (out s)).
(** * Properties *)

(** ** Strings *)

Lemma startsWith_spec (s p : string) :
  startsWith s p = true <-> exists post, s = p +:+ post.
Proof.
  revert s; induction p as [|b p IH]; intros s; simpl.
  - split; [intros _; exists s; reflexivity | reflexivity].
  - destruct s as [|a s]; simpl.
    + split; [discriminate | intros [post H]; discriminate].
    + destruct (Ascii.eqb_spec a b) as [->|Hne].
      * rewrite IH. split; intros [post H]; exists post; [subst; reflexivity|].
        now injection H.
      * split; [discriminate|]. intros [post H]. injection H as <- _. congruence.
Qed.

Lemma includes_spec (s sub : string) :
  includes s sub = true <-> contains s sub.
Proof.
  induction s as [|a s IH].
  - simpl. rewrite orb_false_r, startsWith_spec. split.
    + intros [post H]. exists "", post. exact H.
    + intros (pre & post & H). destruct pre; simpl in H.
      * exists post. exact H.
      * discriminate.
  - cbn [includes]. rewrite orb_true_iff, IH, startsWith_spec. split.
    + intros [[post H] | (pre & post & H)].
      * exists "", post. exact H.
      * exists (String a pre), post. simpl. now rewrite H.
    + intros (pre & post & H). destruct pre as [|c pre]; simpl in H.
      * left. exists post. exact H.
      * right. injection H as _ H. exists pre, post. exact H.
Qed.

Lemma includes_false (s sub : string) :
  includes s sub = false <-> ~ contains s sub.
Proof.
  rewrite <- includes_spec. destruct (includes s sub); split; congruence.
Qed.

(** ** Model mapping *)

(** C7: [mapModel] returns the opus deployment when the identifier contains
    "opus", otherwise the haiku deployment when it contains "haiku",
    otherwise the sonnet deployment; it is a total function of the
    identifier and the deployment record alone, and "claude-opus-20250101"
    resolves to the opus deployment. *)
Theorem mapModel_priority (model : string) (config : AzureConfig) :
  (contains model "opus" -> mapModel model config = opus (deployments config)) /\
  (~ contains model "opus" -> contains model "haiku" ->
   mapModel model config = haiku (deployments config)) /\
  (~ contains model "opus" -> ~ contains model "haiku" ->
   mapModel model config = sonnet (deployments config)) /\
  mapModel "claude-opus-20250101" config = opus (deployments config).
Proof.
  unfold mapModel. repeat split.
  - intros H. apply includes_spec in H. now rewrite H.
  - intros H1 H2. apply includes_false in H1. apply includes_spec in H2.
    now rewrite H1, H2.
  - intros H1 H2. apply includes_false in H1, H2. now rewrite H1, H2.
Qed.

Lemma mapModel_priority_witness :
  mapModel "claude-3-haiku" demo_azure = "gpt-4o-mini".
Proof.
  apply (proj1 (proj2 (mapModel_priority "claude-3-haiku" demo_azure))).
  - apply includes_false. reflexivity.
  - apply includes_spec. reflexivity.
Defined.

(** ** Request translation *)

Lemma zero_request_max_tokens :
  oa_max_tokens (openaiReq demo_azure zero_request) = 4096%Z /\
  oa_max_tokens (openaiReq demo_azure zero_request) <> 0%Z.
Proof. split; [reflexivity | discriminate]. Qed.

(** C4 (amended): [max_tokens] is 4096 when the request leaves it unset or
    gives 0, and is the request's value otherwise; [temperature] is 1 when
    unset and the request's value otherwise, so an explicit temperature 0
    stays 0. *)
Theorem sampling_defaults (azure : AzureConfig) (anthropicReq : AnthropicRequest) :
  let translated := openaiReq azure anthropicReq in
  (ar_max_tokens anthropicReq = None -> oa_max_tokens translated = 4096%Z) /\
  (ar_max_tokens anthropicReq = Some 0%Z -> oa_max_tokens translated = 4096%Z) /\
  (forall n, ar_max_tokens anthropicReq = Some n -> n <> 0%Z ->
             oa_max_tokens translated = n) /\
  (ar_temperature anthropicReq = None -> oa_temperature translated = 1%Q) /\
  (forall t, ar_temperature anthropicReq = Some t -> oa_temperature translated = t) /\
  (ar_temperature anthropicReq = Some 0%Q -> oa_temperature translated = 0%Q).
Proof.
  cbn. repeat split.
  - now intros ->.
  - now intros ->.
  - intros n -> Hn. destruct n; [congruence | reflexivity | reflexivity].
  - now intros ->.
  - now intros t ->.
  - now intros ->.
Qed.

Lemma sampling_defaults_witness :
  oa_max_tokens (openaiReq demo_azure zero_request) = 4096%Z /\
  oa_temperature (openaiReq demo_azure zero_request) = 0%Q.
Proof.
  destruct (sampling_defaults demo_azure zero_request) as (_ & Hmax & _ & _ & _ & Htemp).
  split; [apply Hmax | apply Htemp]; reflexivity.
Defined.

(** ** The non-streaming path *)

(** C8: when the parsed backend response has no first choice, the
    translation throws, the proxy answers 500 with the JSON body
    [{error: message}] and the promise is rejected; the body is not an
    Anthropic message. *)
Theorem no_choice_is_500
    (JSON_parse_body : string -> Completed Completion)
    (JSON_parse_value : string -> option json)
    (anthropicReq : AnthropicRequest) (now : string) (chunks : list Buffer)
    (data : Completion) :
  JSON_parse_body (body_text chunks) = returned data ->
  nullish (cp_choices data) [] = [] ->
  translate_body JSON_parse_body JSON_parse_value anthropicReq now (body_text chunks)
    = thrown "No response from Azure" /\
  handleNonStreaming JSON_parse_body JSON_parse_value anthropicReq now (ns_response chunks)
    = ({| status := 500; content_type := "application/json";
          body := error_body "No response from Azure" |}, rejected).
Proof.
  intros Hparse Hnone.
  assert (Ht : translate_body JSON_parse_body JSON_parse_value anthropicReq now
                 (body_text chunks) = thrown "No response from Azure").
  { unfold translate_body. rewrite Hparse. cbn. now rewrite Hnone. }
  split; [exact Ht|].
  cbn. now rewrite Ht.
Qed.

Lemma no_choice_is_500_witness :
  handleNonStreaming demo_JSON_parse_body demo_JSON_parse_value demo_request "1"
    (ns_response [list_byte_of_string payload_no_choices])
  = ({| status := 500; content_type := "application/json";
        body := error_body "No response from Azure" |}, rejected).
Proof.
  apply (no_choice_is_500 demo_JSON_parse_body demo_JSON_parse_value demo_request "1"
           [list_byte_of_string payload_no_choices]
           {| cp_choices := Some []; cp_usage := None |});
    vm_compute; reflexivity.
Defined.

(** ** Streaming: writes *)


Lemma out_write f s : out (write f s) = if closed s then out s else out s ++ [f].
Proof. unfold out, closed, write, res_write. destruct s as [[o e] ? ? ? ? ? ? ? ?]; now destruct e. Qed.

Lemma closed_write f s : closed (write f s) = closed s.
Proof. unfold closed, write, res_write. destruct s as [[o e] ? ? ? ? ? ? ? ?]; now destruct e. Qed.

Lemma write_closed f s : closed s = true -> write f s = s.
Proof. unfold closed, write, res_write. destruct s as [[o e] ? ? ? ? ? ? ? ?]; cbn. now intros ->. Qed.

Lemma write_all_closed frames s : closed s = true -> write_all frames s = s.
Proof.
  revert s; induction frames as [|f frames IH]; intros s H; cbn; [reflexivity|].
  rewrite (write_closed f s H). now apply IH.
Qed.

Lemma write_all_open frames s :
  closed s = false ->
  write_all frames s = with_res {| sent := out s ++ frames; writableEnded := false |} s.
Proof.
  revert s; induction frames as [|f frames IH]; intros s H.
  - unfold closed, out in *. destruct s as [[o e] ? ? ? ? ? ? ? ?]; cbn in *.
    subst. now rewrite app_nil_r.
  - cbn. rewrite IH by now rewrite closed_write.
    rewrite out_write, H.
    unfold closed, out in *. destruct s as [[o e] ? ? ? ? ? ? ? ?]; cbn in *.
    now rewrite <- app_assoc.
Qed.

#[local] Arguments write_all : simpl never.

Lemma out_write_all frames s :
  out (write_all frames s) = if closed s then out s else out s ++ frames.
Proof.
  destruct (closed s) eqn:H.
  - now rewrite write_all_closed.
  - now rewrite write_all_open.
Qed.

Lemma closed_write_all frames s : closed (write_all frames s) = closed s.
Proof.
  destruct (closed s) eqn:H.
  - now rewrite write_all_closed.
  - now rewrite write_all_open.
Qed.

Lemma write_all_frame frames s : write_all frames s = with_res (res (write_all frames s)) s.
Proof.
  destruct (closed s) eqn:H.
  - rewrite write_all_closed by assumption. now destruct s.
  - now rewrite write_all_open.
Qed.

Ltac only_res :=
  intros; rewrite write_all_frame; reflexivity.

Lemma toolCalls_write_all frames s : toolCalls (write_all frames s) = toolCalls s.
Proof. only_res. Qed.

Lemma toolBlocksStarted_write_all frames s :
  toolBlocksStarted (write_all frames s) = toolBlocksStarted s.
Proof. only_res. Qed.

Lemma currentBlockIndex_write_all frames s :
  currentBlockIndex (write_all frames s) = currentBlockIndex s.
Proof. only_res. Qed.

Lemma textBlockStarted_write_all frames s :
  textBlockStarted (write_all frames s) = textBlockStarted s.
Proof. only_res. Qed.

Lemma tokens_write_all frames s :
  inputTokens (write_all frames s) = inputTokens s /\
  outputTokens (write_all frames s) = outputTokens s.
Proof. split; only_res. Qed.

Lemma buffer_write_all frames s : buffer (write_all frames s) = buffer s.
Proof. only_res. Qed.

Lemma promise_write_all frames s : promise (write_all frames s) = promise s.
Proof. only_res. Qed.

(** The finish branch writes [finish_stops], [message_delta] and
    [message_stop], ends the response and resolves. *)
Lemma handle_finish_eq s reason :
  handle_finish s reason =
  settle resolved
    (end_response
       (write_all (finish_stops s ++
                   [message_delta_frame reason (outputTokens s); message_stop_frame]) s)).
Proof.
  unfold handle_finish, finish_stops, tool_stops, write_all.
  rewrite !fold_left_app. cbn [fold_left].
  do 3 f_equal.
  assert (Hfold : forall (entries : list (Z * ToolCall)) acc,
    fold_left
      (fun acc0 entry =>
         if bool_decide ((currentBlockIndex s + entry.1 + 1)%Z ∈ toolBlocksStarted s)
         then write (stop_frame (currentBlockIndex s + entry.1 + 1)%Z) acc0 else acc0)
      entries acc =
    fold_left (fun acc0 f => write f acc0)
      (map stop_frame
         (List.filter (fun blockIndex => bool_decide (blockIndex ∈ toolBlocksStarted s))
            (map (fun entry => (currentBlockIndex s + entry.1 + 1)%Z) entries))) acc).
  { induction entries as [|e entries IH]; intros acc; cbn; [reflexivity|].
    destruct (bool_decide _); cbn; apply IH. }
  rewrite Hfold. f_equal.
  now destruct (textBlockStarted s).
Qed.

(** ** Streaming: normal forms of the transitions *)

Lemma handle_text_eq s content :
  handle_text s content =
  with_tokens (inputTokens s) (S (outputTokens s))
    (with_text true (currentBlockIndex s)
       (write_all
          ((if textBlockStarted s then []
            else [sseEvent "content_block_start"
                    (content_block_start (currentBlockIndex s) (text_block ""))])
           ++ [sseEvent "content_block_delta"
                 (content_block_delta (currentBlockIndex s) (text_delta content))]) s)).
Proof.
  destruct s as [[o e] p i n b t c m st]. unfold handle_text.
  destruct t, e; reflexivity.
Qed.

Lemma close_text_for_tools_eq s :
  close_text_for_tools s =
  if textBlockStarted s && Nat.eqb (size (toolBlocksStarted s)) 0
  then with_text false (currentBlockIndex s + 1)%Z
         (write_all [stop_frame (currentBlockIndex s)] s)
  else s.
Proof. reflexivity. Qed.

Lemma handle_tool_call_eq s tc :
  handle_tool_call s tc =
  with_toolBlocksStarted (started_after s tc)
    (with_toolCalls (Map_set (tcIndex_of tc) (merged s tc) (toolCalls s))
       (write_all (tool_frames s tc) s)).
Proof.
  destruct s as [[o e] p i n b t c m st].
  unfold handle_tool_call, tool_frames, started_after, starts_block, merged.
  cbn [toolCalls currentBlockIndex toolBlocksStarted with_toolCalls with_toolBlocksStarted
       with_res write res].
  destruct (negb (bool_decide ((c + tcIndex_of tc)%Z ∈ st)) && _);
    cbn [toolCalls currentBlockIndex toolBlocksStarted with_toolCalls with_toolBlocksStarted
         with_res write res];
    destruct (truthy_str (tcd_arguments tc) && _); destruct e; reflexivity.
Qed.

Lemma Map_get_set_eq i v m : Map_get i (Map_set i v m) = Some v.
Proof.
  induction m as [|[k w] m IH]; cbn.
  - now rewrite Z.eqb_refl.
  - destruct (Z.eqb k i) eqn:E; cbn; now rewrite E.
Qed.

Lemma Map_get_set_ne i j v m : i <> j -> Map_get j (Map_set i v m) = Map_get j m.
Proof.
  intros Hne. induction m as [|[k w] m IH]; cbn.
  - destruct (Z.eqb_spec i j); [contradiction | reflexivity].
  - destruct (Z.eqb_spec k i) as [->|Hk]; cbn.
    + destruct (Z.eqb_spec i j); [contradiction | reflexivity].
    + now rewrite IH.
Qed.

Lemma or_str_empty o d : or_str o d = "" <-> truthy_str o = false /\ d = "".
Proof.
  destruct o as [[|a s]|]; cbn; split; try tauto; try (intros [? ?]; discriminate);
    discriminate.
Qed.

Lemma name_merged s tc :
  tc_name (merged s tc) = or_str (tcd_name tc) (name_so_far s (tcIndex_of tc)).
Proof.
  unfold merged, name_so_far. now destruct (Map_get _ _).
Qed.

Lemma name_so_far_tool_call s tc j :
  name_so_far (handle_tool_call s tc) j =
  if Z.eqb (tcIndex_of tc) j then or_str (tcd_name tc) (name_so_far s j)
  else name_so_far s j.
Proof.
  rewrite handle_tool_call_eq. unfold name_so_far at 1.
  cbn [toolCalls with_toolBlocksStarted with_toolCalls].
  destruct (Z.eqb_spec (tcIndex_of tc) j) as [<-|Hne].
  - rewrite Map_get_set_eq. apply name_merged.
  - now rewrite Map_get_set_ne by assumption.
Qed.

(** ** Streaming: what each transition leaves alone *)

Lemma settle_fields p s :
  res (settle p s) = res s /\ toolCalls (settle p s) = toolCalls s /\
  toolBlocksStarted (settle p s) = toolBlocksStarted s /\
  currentBlockIndex (settle p s) = currentBlockIndex s /\
  textBlockStarted (settle p s) = textBlockStarted s /\
  inputTokens (settle p s) = inputTokens s /\
  outputTokens (settle p s) = outputTokens s /\
  buffer (settle p s) = buffer s.
Proof. unfold settle. destruct (promise s); repeat split. Qed.

Lemma handle_finish_fields s reason :
  toolCalls (handle_finish s reason) = toolCalls s /\
  toolBlocksStarted (handle_finish s reason) = toolBlocksStarted s /\
  currentBlockIndex (handle_finish s reason) = currentBlockIndex s /\
  textBlockStarted (handle_finish s reason) = textBlockStarted s /\
  inputTokens (handle_finish s reason) = inputTokens s /\
  outputTokens (handle_finish s reason) = outputTokens s /\
  buffer (handle_finish s reason) = buffer s.
Proof.
  rewrite handle_finish_eq.
  destruct (settle_fields resolved
    (end_response (write_all (finish_stops s ++
       [message_delta_frame reason (outputTokens s); message_stop_frame]) s)))
    as (_ & -> & -> & -> & -> & -> & -> & ->).
  cbn. rewrite toolCalls_write_all, toolBlocksStarted_write_all, currentBlockIndex_write_all,
    textBlockStarted_write_all, buffer_write_all.
  destruct (tokens_write_all (finish_stops s ++
       [message_delta_frame reason (outputTokens s); message_stop_frame]) s) as [-> ->].
  repeat split.
Qed.

Lemma handle_text_fields s content :
  toolCalls (handle_text s content) = toolCalls s /\
  toolBlocksStarted (handle_text s content) = toolBlocksStarted s /\
  currentBlockIndex (handle_text s content) = currentBlockIndex s /\
  buffer (handle_text s content) = buffer s.
Proof.
  rewrite handle_text_eq. cbn.
  now rewrite toolCalls_write_all, toolBlocksStarted_write_all, buffer_write_all.
Qed.

Lemma close_text_for_tools_fields s :
  toolCalls (close_text_for_tools s) = toolCalls s /\
  toolBlocksStarted (close_text_for_tools s) = toolBlocksStarted s /\
  buffer (close_text_for_tools s) = buffer s /\
  currentBlockIndex (close_text_for_tools s) =
    (if textBlockStarted s && Nat.eqb (size (toolBlocksStarted s)) 0
     then (currentBlockIndex s + 1)%Z else currentBlockIndex s).
Proof.
  rewrite close_text_for_tools_eq.
  destruct (textBlockStarted s && _); cbn; [|repeat split].
  now rewrite toolCalls_write_all, toolBlocksStarted_write_all, buffer_write_all.
Qed.

Lemma handle_tool_call_fields s tc :
  toolBlocksStarted (handle_tool_call s tc) = started_after s tc /\
  currentBlockIndex (handle_tool_call s tc) = currentBlockIndex s /\
  textBlockStarted (handle_tool_call s tc) = textBlockStarted s /\
  buffer (handle_tool_call s tc) = buffer s /\
  Map_get (tcIndex_of tc) (toolCalls (handle_tool_call s tc)) = Some (merged s tc).
Proof.
  rewrite handle_tool_call_eq. cbn.
  rewrite currentBlockIndex_write_all, textBlockStarted_write_all, buffer_write_all.
  rewrite Map_get_set_eq. repeat split.
Qed.

(** ** Streaming: block indices of tool calls *)

Lemma tools_indexed_initial anthropicReq now : tools_indexed (initial anthropicReq now).
Proof.
  intros k. cbn. split.
  - intros H. now apply not_elem_of_empty in H.
  - intros (i & H & _). now destruct H.
Qed.

Lemma name_so_far_same s s' : toolCalls s' = toolCalls s -> forall i, name_so_far s' i = name_so_far s i.
Proof. intros H i. unfold name_so_far. now rewrite H. Qed.

Lemma tools_indexed_same s s' :
  toolCalls s' = toolCalls s -> toolBlocksStarted s' = toolBlocksStarted s ->
  currentBlockIndex s' = currentBlockIndex s ->
  tools_indexed s -> tools_indexed s'.
Proof.
  intros Hm Hst Hc Hinv k. rewrite Hst, Hc, (Hinv k).
  split; intros (i & Hi & ->); exists i; split; auto.
  - now rewrite (name_so_far_same _ _ Hm).
  - now rewrite <- (name_so_far_same _ _ Hm).
Qed.

Lemma tools_indexed_tool_call s tc :
  tools_indexed s -> tools_indexed (handle_tool_call s tc).
Proof.
  intros Hinv k.
  destruct (handle_tool_call_fields s tc) as (-> & -> & _ & _ & _).
  set (i := tcIndex_of tc). set (c := currentBlockIndex s).
  assert (Hstart : k ∈ started_after s tc <->
                   k ∈ toolBlocksStarted s \/ (k = (c + i)%Z /\ tc_name (merged s tc) <> "")).
  { unfold started_after, starts_block. fold i c.
    destruct (bool_decide_reflect ((c + i)%Z ∈ toolBlocksStarted s)) as [Hin|Hnin];
      cbn [negb andb].
    - split; [intros H; now left|]. intros [H|[-> _]]; assumption.
    - destruct (String.eqb_spec (tc_name (merged s tc)) "") as [He|Hn]; cbn [negb andb].
      + split; [intros H; now left|]. intros [H|[_ H]]; [assumption | contradiction].
      + rewrite elem_of_union, elem_of_singleton. split.
        * intros [->|H]; [right; split; auto | left; assumption].
        * intros [H|[-> _]]; [right; assumption | left; reflexivity]. }
  rewrite Hstart, name_merged. fold i. split.
  - intros [H|[-> Hname]].
    + apply Hinv in H as (j & Hj & ->). exists j. split; [|reflexivity].
      rewrite name_so_far_tool_call. fold i c.
      destruct (Z.eqb_spec i j) as [<-|]; [|assumption].
      intros He. apply or_str_empty in He as [_ He]. contradiction.
    + exists i. split; [|reflexivity].
      rewrite name_so_far_tool_call. fold i. now rewrite Z.eqb_refl.
  - intros (j & Hj & ->). rewrite name_so_far_tool_call in Hj. fold i in Hj.
    destruct (Z.eqb_spec i j) as [<-|Hne].
    + right. split; [reflexivity | assumption].
    + left. apply Hinv. exists j. split; [assumption | reflexivity].
Qed.

Lemma tools_indexed_step s s' : tools_indexed s -> step s s' -> tools_indexed s'.
Proof.
  intros Hinv Hstep. destruct Hstep.
  - destruct (handle_text_fields s content) as (Hm & Hst & Hc & _).
    now apply (tools_indexed_same s).
  - destruct (close_text_for_tools_fields s) as (Hm & Hst & _ & Hc).
    destruct (textBlockStarted s && Nat.eqb (size (toolBlocksStarted s)) 0) eqn:Hcond;
      [|now apply (tools_indexed_same s)].
    apply andb_true_iff in Hcond as [_ Hsize]. apply Nat.eqb_eq in Hsize.
    apply size_empty_inv in Hsize. apply leibniz_equiv in Hsize.
    intros k. rewrite Hst, Hsize. split.
    + intros H. now apply not_elem_of_empty in H.
    + intros (i & Hi & _). rewrite (name_so_far_same _ _ Hm) in Hi.
      assert (Hin : (currentBlockIndex s + i)%Z ∈ toolBlocksStarted s)
        by (apply Hinv; eauto).
      rewrite Hsize in Hin. now apply not_elem_of_empty in Hin.
  - now apply tools_indexed_tool_call.
  - now apply (tools_indexed_same s).
  - destruct (handle_finish_fields s reason) as (Hm & Hst & Hc & _).
    now apply (tools_indexed_same s).
  - now apply (tools_indexed_same s).
Qed.

Lemma reachable_tools_indexed anthropicReq now s :
  reachable anthropicReq now s -> tools_indexed s.
Proof.
  unfold reachable. intros H. pattern s.
  eapply rtc_ind_r; [apply tools_indexed_initial | | exact H].
  intros y z _ Hstep IH. eapply tools_indexed_step; eassumption.
Qed.



(** ** Streaming: a [data] callback is a sequence of transitions *)

Lemma handle_tool_calls_steps tool_calls s :
  rtc step s (fold_left handle_tool_call tool_calls s).
Proof.
  revert s; induction tool_calls as [|tc rest IH]; intros s; cbn; [constructor|].
  eapply rtc_l; [apply step_tool_call | apply IH].
Qed.

Lemma handle_event_steps s data : rtc step s (handle_event s data).1.
Proof.
  unfold handle_event.
  destruct (nullish (ch_choices data) []) as [|choice ?]; [constructor|].
  destruct (truthy_str (sc_finish_reason choice)); cbn [fst].
  { apply rtc_once, step_finish. }
  set (s1 := if truthy_str _ then _ else s).
  assert (H1 : rtc step s s1).
  { subst s1. destruct (truthy_str _); [apply rtc_once, step_text | constructor]. }
  set (s2 := match d_tool_calls _ with Some _ => _ | None => s1 end).
  assert (H2 : rtc step s1 s2).
  { subst s2. destruct (d_tool_calls _); [|constructor].
    unfold handle_tool_calls.
    eapply rtc_l; [apply step_close_text | apply handle_tool_calls_steps]. }
  etrans; [exact H1|]. etrans; [exact H2|].
  destruct (ch_usage data); [apply rtc_once, step_usage | constructor].
Qed.

Section Steps.

Variable JSON_parse : string -> option StreamChunk.

Lemma handle_line_steps s line : rtc step s (handle_line JSON_parse s line).1.
Proof.
  unfold handle_line.
  destruct (negb _); [constructor|].
  destruct (String.eqb _ _); [constructor|].
  destruct (JSON_parse _); [apply handle_event_steps | constructor].
Qed.

Lemma handle_lines_steps lines s : rtc step s (handle_lines JSON_parse s lines).
Proof.
  revert s; induction lines as [|line rest IH]; intros s; cbn; [constructor|].
  pose proof (handle_line_steps s line) as H.
  destruct (handle_line JSON_parse s line) as [s' returned]; cbn in H.
  destruct returned; [exact H | etrans; [exact H | apply IH]].
Qed.

Lemma on_text_steps s text : rtc step s (on_text JSON_parse s text).
Proof.
  unfold on_text. eapply rtc_l; [apply step_buffer | apply handle_lines_steps].
Qed.

Lemma on_data_steps chunks s : rtc step s (fold_left (on_data JSON_parse) chunks s).
Proof.
  revert s; induction chunks as [|chunk rest IH]; intros s; cbn; [constructor|].
  etrans; [apply on_text_steps | apply IH].
Qed.

Lemma data_reachable anthropicReq now chunks :
  reachable anthropicReq now
    (fold_left (on_data JSON_parse) chunks (initial anthropicReq now)).
Proof. apply on_data_steps. Qed.

End Steps.







(** ** Streaming: the frames of each transition *)

Lemma step_transition s s' : step s s' <-> exists t, s' = apply_transition t s.
Proof.
  split.
  - intros []; [exists (t_text content) | exists t_close_text | exists (t_tool_call tc)
               | exists (t_usage usage) | exists (t_finish reason) | exists (t_buffer b)];
      reflexivity.
  - intros [[] ->]; constructor.
Qed.

Lemma out_end_response s : out (end_response s) = out s.
Proof. reflexivity. Qed.

Lemma out_settle p s : out (settle p s) = out s.
Proof. unfold out. now destruct (settle_fields p s) as (-> & _). Qed.

Lemma closed_settle p s : closed (settle p s) = closed s.
Proof. unfold closed. now destruct (settle_fields p s) as (-> & _). Qed.

Lemma out_transition t s :
  out (apply_transition t s) = if closed s then out s else out s ++ writes t s.
Proof.
  destruct t; cbn [apply_transition writes].
  - rewrite handle_text_eq.
    change (out (write_all (text_frames s content) s) = if closed s then out s else out s ++ text_frames s content).
    apply out_write_all.
  - rewrite close_text_for_tools_eq.
    destruct (textBlockStarted s && _).
    + change (out (write_all [stop_frame (currentBlockIndex s)] s) =
              if closed s then out s else out s ++ [stop_frame (currentBlockIndex s)]).
      apply out_write_all.
    + rewrite app_nil_r. now destruct (closed s).
  - rewrite handle_tool_call_eq.
    change (out (write_all (tool_frames s tc) s) = if closed s then out s else out s ++ tool_frames s tc).
    apply out_write_all.
  - change (out s = if closed s then out s else out s ++ []).
    rewrite app_nil_r. now destruct (closed s).
  - rewrite handle_finish_eq, out_settle, out_end_response. apply out_write_all.
  - change (out s = if closed s then out s else out s ++ []).
    rewrite app_nil_r. now destruct (closed s).
Qed.

Lemma closed_transition t s :
  closed (apply_transition t s) = closed s || finishes t.
Proof.
  destruct t; cbn [apply_transition finishes]; rewrite ?orb_false_r, ?orb_true_r.
  - rewrite handle_text_eq.
    change (closed (write_all (text_frames s content) s) = closed s).
    apply closed_write_all.
  - rewrite close_text_for_tools_eq.
    destruct (textBlockStarted s && _); [|reflexivity].
    change (closed (write_all [stop_frame (currentBlockIndex s)] s) = closed s).
    apply closed_write_all.
  - rewrite handle_tool_call_eq.
    change (closed (write_all (tool_frames s tc) s) = closed s).
    apply closed_write_all.
  - reflexivity.
  - rewrite handle_finish_eq, closed_settle. reflexivity.
  - reflexivity.
Qed.

(** Nothing is delivered once the response is closed. *)
Lemma closed_absorbs s s' :
  closed s = true -> rtc step s s' -> closed s' = true /\ out s' = out s.
Proof.
  intros Hc H. induction H as [|s s1 s2 Hstep _ IH]; [auto|].
  apply step_transition in Hstep as [t ->].
  assert (Hc1 : closed (apply_transition t s) = true)
    by now rewrite closed_transition, Hc.
  destruct (IH Hc1) as [-> ->]. split; [reflexivity|].
  now rewrite out_transition, Hc.
Qed.

(** ** Streaming: deltas follow starts, starts carry the empty input *)



Lemma in_finish_stops s f : In f (finish_stops s) -> exists k, f = stop_frame k.
Proof.
  unfold finish_stops, tool_stops. intros H. apply in_app_or in H as [H|H].
  - destruct (textBlockStarted s); [|destruct H].
    destruct H as [<-|[]]. eauto.
  - apply in_map_iff in H as (k & <- & _). eauto.
Qed.

(** The frames a transition writes, by shape. *)
Lemma in_writes t s f :
  In f (writes t s) ->
  (exists k, f = stop_frame k) \/
  (exists k b, f = sseEvent "content_block_start" (content_block_start k (text_block b))) \/
  (exists k c, f = sseEvent "content_block_delta" (content_block_delta k (text_delta c))) \/
  (exists tc, t = t_tool_call tc /\ starts_block s tc = true /\
              f = tool_start_frame ((currentBlockIndex s + tcIndex_of tc)%Z) (merged s tc)) \/
  (exists tc, t = t_tool_call tc /\
              bool_decide ((currentBlockIndex s + tcIndex_of tc)%Z ∈ started_after s tc) = true /\
              f = tool_delta_frame ((currentBlockIndex s + tcIndex_of tc)%Z)
                    (or_str (tcd_arguments tc) "")) \/
  (exists r n, t = t_finish r /\ f = message_delta_frame r n) \/
  (exists r, t = t_finish r /\ f = message_stop_frame).
Proof.
  destruct t; cbn [writes]; intros H.
  - unfold text_frames in H. apply in_app_or in H as [H|[<-|[]]].
    + destruct (textBlockStarted s); [destruct H|]. destruct H as [<-|[]].
      right; left. eauto.
    + right; right; left. eauto.
  - destruct (textBlockStarted s && _); [|destruct H].
    destruct H as [<-|[]]. left. eauto.
  - unfold tool_frames in H. apply in_app_or in H as [H|H].
    + destruct (starts_block s tc) eqn:Hs; [|destruct H]. destruct H as [<-|[]].
      do 3 right; left. eauto.
    + destruct (truthy_str (tcd_arguments tc)); [|destruct H].
      destruct (bool_decide _) eqn:Hb; [|destruct H]. destruct H as [<-|[]].
      do 4 right; left. eauto.
  - destruct H.
  - apply in_app_or in H as [H|[<-|[<-|[]]]].
    + left. now apply (in_finish_stops s).
    + do 5 right; left. eauto.
    + do 6 right. eauto.
  - destruct H.
Qed.






Lemma out_on_close s closing : out (on_close s closing) = out s.
Proof.
  destruct closing; cbn [on_close]; rewrite out_settle.
  - now destruct (writableEnded (res s)).
  - reflexivity.
Qed.

Lemma handleStreaming_out JSON_parse anthropicReq now backend :
  exists s, reachable anthropicReq now s /\
            out (handleStreaming JSON_parse anthropicReq now backend) = out s.
Proof.
  destruct backend as [|chunks closing]; cbn [handleStreaming].
  - exists (initial anthropicReq now). split; [constructor|].
    now rewrite out_settle.
  - eexists. split; [apply (data_reachable JSON_parse)|]. apply out_on_close.
Qed.




(** ** Malformed tool arguments *)




(** Malformed arguments in a stream: the start carries the empty object,
    the text goes out as it came, and the stream ends normally. *)
Example bad_arguments_stream :
  res (handleStreaming demo_JSON_parse_tools demo_request "1"
         (response [data_line payload_bad_fragment; data_line (payload_finish "tool_calls")]
            stream_end))
  = {| sent :=
         [ {| event := "message_start";
              data := message_start "msg_1" "claude-sonnet-x" 0 0 |};
           {| event := "content_block_start";
              data := content_block_start 0
                        (tool_use_block "call_1" "get_weather" (JObject [])) |};
           {| event := "content_block_delta";
              data := content_block_delta 0 (input_json_delta "{bad json") |};
           {| event := "message_delta"; data := message_delta tool_use 0 |};
           {| event := "message_stop"; data := message_stop |} ];
       writableEnded := true |} /\
  promise (handleStreaming demo_JSON_parse_tools demo_request "1"
             (response [data_line payload_bad_fragment;
                        data_line (payload_finish "tool_calls")] stream_end))
  = resolved.
Proof. vm_compute. split; reflexivity. Qed.

Example bad_arguments_response :
  handleNonStreaming demo_JSON_parse_body demo_JSON_parse_value demo_request "1"
    (ns_response [list_byte_of_string payload_bad_arguments])
  = ({| status := 200; content_type := "application/json";
        body := message_body
                  {| rsp_id := "msg_1";
                     rsp_content := [ToolUse (Some "call_1") (Some "get_weather") empty_object];
                     rsp_model := "claude-sonnet-x";
                     rsp_stop_reason := tool_use;
                     rsp_input_tokens := 0;
                     rsp_output_tokens := 0 |} |}, resolved).
Proof. vm_compute. reflexivity. Qed.

(** ** Token counters *)

Lemma usage_not_always_applied :
  (ch_usage (usage_chunk 5 7)
     = Some {| prompt_tokens := Some 5; completion_tokens := Some 7 |} /\
   let s := fold_left (on_data demo_JSON_parse) [data_line payload_usage]
              (initial demo_request "1") in
   (inputTokens s, outputTokens s) = (0, 0) /\
   (inputTokens s, outputTokens s) <> (5, 7)) /\
  (let data :=
     {| ch_choices :=
          Some [ {| sc_delta := Some {| d_content := Some "Hel"; d_tool_calls := None |};
                    sc_finish_reason := None |} ];
        ch_usage := Some {| prompt_tokens := Some 12; completion_tokens := Some 0 |} |} in
   outputTokens (handle_event (initial demo_request "1") data).1 = 1).
Proof. vm_compute. repeat split; discriminate. Qed.

Lemma tokens_tool_call s tc :
  inputTokens (handle_tool_call s tc) = inputTokens s /\
  outputTokens (handle_tool_call s tc) = outputTokens s.
Proof. rewrite handle_tool_call_eq. cbn. apply tokens_write_all. Qed.

Lemma tokens_tool_calls tool_calls s :
  inputTokens (handle_tool_calls s tool_calls) = inputTokens s /\
  outputTokens (handle_tool_calls s tool_calls) = outputTokens s.
Proof.
  unfold handle_tool_calls.
  assert (Hclose : inputTokens (close_text_for_tools s) = inputTokens s /\
                   outputTokens (close_text_for_tools s) = outputTokens s).
  { rewrite close_text_for_tools_eq. destruct (_ && _); [|split; reflexivity].
    cbn. apply tokens_write_all. }
  destruct Hclose as [<- <-]. generalize (close_text_for_tools s). clear s.
  induction tool_calls as [|tc rest IH]; intros s; cbn [fold_left]; [split; reflexivity|].
  destruct (IH (handle_tool_call s tc)) as [-> ->]. apply tokens_tool_call.
Qed.

Lemma tokens_text s content :
  inputTokens (handle_text s content) = inputTokens s /\
  outputTokens (handle_text s content) = S (outputTokens s).
Proof.
  rewrite handle_text_eq. split; reflexivity.
Qed.

(** C6 (amended): every text delta processed adds exactly one to the
    output-token counter; and for a parsed event that has a first choice
    without finish reason, the counters after the event are: the input
    counter replaced by the reported prompt count when the event has a usage
    object whose prompt count is present and not zero, unchanged otherwise;
    the output counter, first increased by one if the event carries text,
    then replaced by the reported completion count when the usage object has
    one that is present and not zero. *)
Theorem token_counters (s : StreamState) (data : StreamChunk)
    (choice : StreamChoice) (rest : list StreamChoice) :
  nullish (ch_choices data) [] = choice :: rest ->
  truthy_str (sc_finish_reason choice) = false ->
  let s' := (handle_event s data).1 in
  let counted :=
    if truthy_str (d_content (nullish (sc_delta choice) empty_delta))
    then S (outputTokens s) else outputTokens s in
  (forall content, outputTokens (handle_text s content) = S (outputTokens s)) /\
  match ch_usage data with
  | Some usage =>
      reported (prompt_tokens usage) (inputTokens s) (inputTokens s') /\
      reported (completion_tokens usage) counted (outputTokens s')
  | None => inputTokens s' = inputTokens s /\ outputTokens s' = counted
  end.
Proof.
  intros Hchoice Hfinish s' counted.
  split; [intros content; apply tokens_text|].
  subst s'. unfold handle_event. rewrite Hchoice, Hfinish. cbn [fst].
  set (delta := nullish (sc_delta choice) empty_delta) in *.
  set (s1 := if truthy_str (d_content delta) then _ else s).
  assert (H1 : inputTokens s1 = inputTokens s /\ outputTokens s1 = counted).
  { subst s1 counted. destruct (truthy_str (d_content delta)); [|split; reflexivity].
    apply tokens_text. }
  set (s2 := match d_tool_calls delta with Some _ => _ | None => s1 end).
  assert (H2 : inputTokens s2 = inputTokens s /\ outputTokens s2 = counted).
  { subst s2. destruct (d_tool_calls delta); [|exact H1].
    destruct (tokens_tool_calls l s1) as [-> ->]. exact H1. }
  destruct H2 as [Hin Hout].
  destruct (ch_usage data) as [usage|]; [|split; assumption].
  cbn. rewrite Hin, Hout. unfold reported, or_nat.
  split; [destruct (prompt_tokens usage) as [[|n]|] | destruct (completion_tokens usage) as [[|n]|]];
    reflexivity.
Qed.

Lemma token_counters_witness :
  let data :=
    {| ch_choices :=
         Some [ {| sc_delta := Some {| d_content := Some "Hel"; d_tool_calls := None |};
                   sc_finish_reason := None |} ];
       ch_usage := Some {| prompt_tokens := Some 12; completion_tokens := Some 0 |} |} in
  let s' := (handle_event (initial demo_request "1") data).1 in
  inputTokens s' = 12 /\ outputTokens s' = 1.
Proof.
  exact (proj2 (token_counters (initial demo_request "1")
           {| ch_choices :=
                Some [ {| sc_delta := Some {| d_content := Some "Hel"; d_tool_calls := None |};
                          sc_finish_reason := None |} ];
              ch_usage := Some {| prompt_tokens := Some 12; completion_tokens := Some 0 |} |}
           _ [] eq_refl eq_refl)).
Defined.

(** ** Lines and chunk boundaries *)

Lemma append_nil_r (x : string) : x +:+ "" = x.
Proof.
  induction x as [|a x IH]; [reflexivity|].
  change (String a (x +:+ "") = String a x). now rewrite IH.
Qed.

Lemma append_assoc (x y z : string) : (x +:+ y) +:+ z = x +:+ (y +:+ z).
Proof.
  induction x as [|a x IH]; [reflexivity|].
  change (String a ((x +:+ y) +:+ z) = String a (x +:+ (y +:+ z))). now rewrite IH.
Qed.

Lemma split_nl_nonempty (s : string) : split_nl s <> [].
Proof.
  destruct s as [|a s]; cbn; [discriminate|].
  destruct (Ascii.eqb a "010"); [discriminate|].
  destruct (split_nl s); discriminate.
Qed.

Lemma split_nl_lines_rest (s : string) : split_nl s = lines_of s ++ [rest_of s].
Proof. apply app_removelast_last, split_nl_nonempty. Qed.

Lemma split_nl_cons (a : ascii) (s : string) :
  split_nl (String a s) =
  if Ascii.eqb a "010" then "" :: split_nl s
  else match split_nl s with
       | [] => [String a ""]
       | p :: ps => String a p :: ps
       end.
Proof. reflexivity. Qed.

Lemma lines_rest_unique (ls ls' : list string) (r r' : string) :
  ls ++ [r] = ls' ++ [r'] -> ls = ls' /\ r = r'.
Proof. intros H. now apply app_inj_tail in H. Qed.

Lemma split_nl_app (a b : string) :
  split_nl (a +:+ b) = lines_of a ++ split_nl (rest_of a +:+ b).
Proof.
  induction a as [|c a IH]; [reflexivity|].
  change (String c a +:+ b) with (String c (a +:+ b)).
  rewrite split_nl_cons, IH.
  pose proof (split_nl_lines_rest (String c a)) as Hca.
  rewrite split_nl_cons in Hca.
  pose proof (split_nl_lines_rest a) as Ha.
  destruct (Ascii.eqb c "010") eqn:Hc.
  - rewrite Ha in Hca. change ("" :: lines_of a ++ [rest_of a])
      with (("" :: lines_of a) ++ [rest_of a]) in Hca.
    apply lines_rest_unique in Hca as [<- <-]. reflexivity.
  - rewrite Ha in Hca. destruct (lines_of a) as [|l ls] eqn:Hl; cbn [app] in *.
    + change [String c (rest_of a)] with ([] ++ [String c (rest_of a)]) in Hca.
      apply lines_rest_unique in Hca as [<- <-]. cbn [app].
      change (String c (rest_of a) +:+ b) with (String c (rest_of a +:+ b)).
      rewrite split_nl_cons, Hc. reflexivity.
    + change (String c l :: ls ++ [rest_of a])
        with ((String c l :: ls) ++ [rest_of a]) in Hca.
      apply lines_rest_unique in Hca as [<- <-]. reflexivity.
Qed.

Lemma lines_of_app (a b : string) :
  lines_of (a +:+ b) = lines_of a ++ lines_of (rest_of a +:+ b).
Proof.
  pose proof (split_nl_lines_rest (a +:+ b)) as H.
  rewrite split_nl_app, (split_nl_lines_rest (rest_of a +:+ b)), app_assoc in H.
  now apply lines_rest_unique in H as [<- _].
Qed.

Lemma rest_of_app (a b : string) : rest_of (a +:+ b) = rest_of (rest_of a +:+ b).
Proof.
  pose proof (split_nl_lines_rest (a +:+ b)) as H.
  rewrite split_nl_app, (split_nl_lines_rest (rest_of a +:+ b)), app_assoc in H.
  now apply lines_rest_unique in H as [_ <-].
Qed.

(** The pending line holds no line feed. *)
Lemma split_nl_rest (s : string) : split_nl (rest_of s) = [rest_of s].
Proof.
  induction s as [|c s IH]; [reflexivity|].
  pose proof (split_nl_lines_rest (String c s)) as Hcs.
  rewrite split_nl_cons in Hcs.
  pose proof (split_nl_lines_rest s) as Hs.
  destruct (Ascii.eqb c "010") eqn:Hc.
  - rewrite Hs in Hcs. change ("" :: lines_of s ++ [rest_of s])
      with (("" :: lines_of s) ++ [rest_of s]) in Hcs.
    apply lines_rest_unique in Hcs as [_ <-]. exact IH.
  - rewrite Hs in Hcs. destruct (lines_of s) as [|l ls]; cbn [app] in Hcs.
    + change [String c (rest_of s)] with ([] ++ [String c (rest_of s)]) in Hcs.
      apply lines_rest_unique in Hcs as [_ <-].
      rewrite split_nl_cons, Hc, IH. reflexivity.
    + change (String c l :: ls ++ [rest_of s])
        with ((String c l :: ls) ++ [rest_of s]) in Hcs.
      apply lines_rest_unique in Hcs as [_ <-]. exact IH.
Qed.

(** ** The handlers neither read nor change the pending line *)

Lemma write_all_with_buffer frames b s :
  write_all frames (with_buffer b s) = with_buffer b (write_all frames s).
Proof.
  destruct (closed s) eqn:Hc.
  - now rewrite !write_all_closed.
  - now rewrite !write_all_open.
Qed.

Lemma settle_with_buffer p b s : settle p (with_buffer b s) = with_buffer b (settle p s).
Proof. unfold settle. cbn. now destruct (promise s). Qed.

Lemma handle_text_with_buffer b s content :
  handle_text (with_buffer b s) content = with_buffer b (handle_text s content).
Proof.
  rewrite !handle_text_eq. cbn [textBlockStarted currentBlockIndex with_buffer].
  now rewrite write_all_with_buffer.
Qed.

Lemma close_text_with_buffer b s :
  close_text_for_tools (with_buffer b s) = with_buffer b (close_text_for_tools s).
Proof.
  rewrite !close_text_for_tools_eq.
  cbn [textBlockStarted toolBlocksStarted currentBlockIndex with_buffer].
  destruct (textBlockStarted s && _); [|reflexivity].
  now rewrite write_all_with_buffer.
Qed.

Lemma handle_tool_call_with_buffer b s tc :
  handle_tool_call (with_buffer b s) tc = with_buffer b (handle_tool_call s tc).
Proof.
  rewrite !handle_tool_call_eq.
  change (tool_frames (with_buffer b s) tc) with (tool_frames s tc).
  change (started_after (with_buffer b s) tc) with (started_after s tc).
  change (merged (with_buffer b s) tc) with (merged s tc).
  cbn [toolCalls with_buffer]. now rewrite write_all_with_buffer.
Qed.

Lemma handle_tool_calls_with_buffer b s tool_calls :
  handle_tool_calls (with_buffer b s) tool_calls
  = with_buffer b (handle_tool_calls s tool_calls).
Proof.
  unfold handle_tool_calls. rewrite close_text_with_buffer.
  generalize (close_text_for_tools s). clear s.
  induction tool_calls as [|tc rest IH]; intros s; cbn [fold_left]; [reflexivity|].
  now rewrite handle_tool_call_with_buffer, IH.
Qed.

Lemma handle_finish_with_buffer b s reason :
  handle_finish (with_buffer b s) reason = with_buffer b (handle_finish s reason).
Proof.
  rewrite !handle_finish_eq.
  change (finish_stops (with_buffer b s)) with (finish_stops s).
  cbn [outputTokens with_buffer].
  now rewrite write_all_with_buffer, <- settle_with_buffer.
Qed.

Lemma handle_event_with_buffer b s data :
  handle_event (with_buffer b s) data =
  (with_buffer b (handle_event s data).1, (handle_event s data).2).
Proof.
  unfold handle_event.
  destruct (nullish (ch_choices data) []) as [|choice ?]; [reflexivity|].
  destruct (truthy_str (sc_finish_reason choice)); cbn [fst snd].
  { now rewrite handle_finish_with_buffer. }
  f_equal.
  destruct (truthy_str (d_content _)); destruct (d_tool_calls _); destruct (ch_usage data);
    rewrite ?handle_text_with_buffer, ?handle_tool_calls_with_buffer; reflexivity.
Qed.

Lemma buffer_transition t s :
  buffer (apply_transition t s) =
  match t with t_buffer b => b | _ => buffer s end.
Proof.
  destruct t; cbn [apply_transition].
  - now destruct (handle_text_fields s content) as (_ & _ & _ & ->).
  - now destruct (close_text_for_tools_fields s) as (_ & _ & -> & _).
  - now destruct (handle_tool_call_fields s tc) as (_ & _ & _ & -> & _).
  - reflexivity.
  - now destruct (handle_finish_fields s reason) as (_ & _ & _ & _ & _ & _ & ->).
  - reflexivity.
Qed.

Lemma buffer_handle_event s data : buffer (handle_event s data).1 = buffer s.
Proof.
  unfold handle_event.
  destruct (nullish (ch_choices data) []) as [|choice ?]; [reflexivity|].
  destruct (truthy_str (sc_finish_reason choice)); cbn [fst].
  { apply (buffer_transition (t_finish _)). }
  assert (Htools : forall tool_calls s0, buffer (handle_tool_calls s0 tool_calls) = buffer s0).
  { intros tool_calls s0. unfold handle_tool_calls.
    rewrite <- (buffer_transition t_close_text s0). cbn [apply_transition].
    generalize (close_text_for_tools s0).
    induction tool_calls as [|tc rest IH]; intros s1; cbn [fold_left]; [reflexivity|].
    rewrite IH. apply (buffer_transition (t_tool_call tc)). }
  destruct (truthy_str (d_content _)); destruct (d_tool_calls _); destruct (ch_usage data);
    cbn [handle_usage buffer with_tokens]; rewrite ?Htools;
    try reflexivity; apply (buffer_transition (t_text _)).
Qed.

Lemma closed_handle_text s content : closed (handle_text s content) = closed s.
Proof.
  change (handle_text s content) with (apply_transition (t_text content) s).
  rewrite closed_transition. apply orb_false_r.
Qed.

Lemma closed_close_text s : closed (close_text_for_tools s) = closed s.
Proof.
  change (close_text_for_tools s) with (apply_transition t_close_text s).
  rewrite closed_transition. apply orb_false_r.
Qed.

Lemma closed_handle_tool_call s tc : closed (handle_tool_call s tc) = closed s.
Proof.
  change (handle_tool_call s tc) with (apply_transition (t_tool_call tc) s).
  rewrite closed_transition. apply orb_false_r.
Qed.

Lemma closed_handle_tool_calls tool_calls s :
  closed (handle_tool_calls s tool_calls) = closed s.
Proof.
  unfold handle_tool_calls. rewrite <- (closed_close_text s).
  generalize (close_text_for_tools s).
  induction tool_calls as [|tc rest IH]; intros s1; cbn [fold_left]; [reflexivity|].
  rewrite IH. apply closed_handle_tool_call.
Qed.

Lemma closed_handle_usage s usage : closed (handle_usage s usage) = closed s.
Proof. reflexivity. Qed.

Lemma closed_handle_event s data :
  closed (handle_event s data).1 = closed s || (handle_event s data).2.
Proof.
  unfold handle_event.
  destruct (nullish (ch_choices data) []) as [|choice ?]; [now rewrite orb_false_r|].
  destruct (truthy_str (sc_finish_reason choice)); cbn [fst snd].
  { apply (closed_transition (t_finish _)). }
  rewrite orb_false_r.
  destruct (truthy_str (d_content _)); destruct (d_tool_calls _); destruct (ch_usage data);
    rewrite ?closed_handle_usage, ?closed_handle_tool_calls, ?closed_handle_text;
    reflexivity.
Qed.

Section Lines.

Variable JSON_parse : string -> option StreamChunk.

Lemma handle_line_with_buffer b s line :
  handle_line JSON_parse (with_buffer b s) line =
  (with_buffer b (handle_line JSON_parse s line).1, (handle_line JSON_parse s line).2).
Proof.
  unfold handle_line.
  destruct (negb _); [reflexivity|].
  destruct (String.eqb _ _); [reflexivity|].
  destruct (JSON_parse _); [apply handle_event_with_buffer | reflexivity].
Qed.

Lemma buffer_handle_line s line : buffer (handle_line JSON_parse s line).1 = buffer s.
Proof.
  unfold handle_line.
  destruct (negb _); [reflexivity|].
  destruct (String.eqb _ _); [reflexivity|].
  destruct (JSON_parse _); [apply buffer_handle_event | reflexivity].
Qed.

Lemma returned_handle_line s line :
  (handle_line JSON_parse s line).2 = finish_line JSON_parse line.
Proof.
  unfold handle_line, finish_line.
  destruct (startsWith line "data: "); cbn [negb andb]; [|reflexivity].
  destruct (String.eqb _ _); cbn [negb]; [reflexivity|].
  destruct (JSON_parse _) as [data|]; [|reflexivity].
  unfold handle_event.
  destruct (nullish (ch_choices data) []) as [|choice ?]; [reflexivity|].
  now destruct (truthy_str (sc_finish_reason choice)).
Qed.

Lemma closed_handle_line s line :
  closed (handle_line JSON_parse s line).1 = closed s || finish_line JSON_parse line.
Proof.
  rewrite <- (returned_handle_line s line). unfold handle_line.
  destruct (negb _); [now rewrite orb_false_r|].
  destruct (String.eqb _ _); [now rewrite orb_false_r|].
  destruct (JSON_parse _); [apply closed_handle_event | now rewrite orb_false_r].
Qed.

Lemma drain_cons line rest s :
  drain JSON_parse s (line :: rest) = drain JSON_parse (handle_line JSON_parse s line).1 rest.
Proof. reflexivity. Qed.

Lemma drain_steps lines s : rtc step s (drain JSON_parse s lines).
Proof.
  revert s; induction lines as [|line rest IH]; intros s; cbn; [constructor|].
  etrans; [apply handle_line_steps | apply IH].
Qed.

Lemma drain_with_buffer b lines s :
  drain JSON_parse (with_buffer b s) lines = with_buffer b (drain JSON_parse s lines).
Proof.
  revert s; induction lines as [|line rest IH]; intros s; cbn; [reflexivity|].
  rewrite handle_line_with_buffer. cbn [fst]. apply IH.
Qed.

Lemma buffer_drain lines s : buffer (drain JSON_parse s lines) = buffer s.
Proof.
  revert s; induction lines as [|line rest IH]; intros s; [reflexivity|].
  rewrite drain_cons, IH. apply buffer_handle_line.
Qed.

Lemma closed_drain lines s :
  closed (drain JSON_parse s lines) = closed s || existsb (finish_line JSON_parse) lines.
Proof.
  revert s; induction lines as [|line rest IH]; intros s; [cbn; now rewrite orb_false_r|].
  rewrite drain_cons, IH, closed_handle_line. cbn [existsb]. now rewrite orb_assoc.
Qed.

Lemma drain_app lines more s :
  drain JSON_parse s (lines ++ more) = drain JSON_parse (drain JSON_parse s lines) more.
Proof. apply fold_left_app. Qed.

End Lines.

(** ** Chunk boundaries between decoded texts do not show *)

Lemma res_eq s t : out s = out t -> closed s = closed t -> res s = res t.
Proof.
  unfold out, closed. destruct (res s), (res t); cbn. now intros -> ->.
Qed.

Lemma same_output_refl s : same_output s s.
Proof. repeat split. Qed.

Lemma same_output_sym s t : same_output s t -> same_output t s.
Proof.
  intros (Hres & Hbuf & Heq). repeat split; [congruence | congruence|].
  intros Hc. symmetry. apply Heq. unfold closed in *. now rewrite Hres.
Qed.

Lemma same_output_trans s t u : same_output s t -> same_output t u -> same_output s u.
Proof.
  intros (Hres & Hbuf & Heq) (Hres' & Hbuf' & Heq').
  repeat split; [congruence | congruence|].
  intros Hc. rewrite (Heq Hc). apply Heq'. unfold closed in *. now rewrite <- Hres.
Qed.

Lemma same_output_closed s t :
  closed s = true -> res s = res t -> buffer s = buffer t -> same_output s t.
Proof. intros Hc Hres Hbuf. repeat split; [assumption | assumption | congruence]. Qed.

Lemma with_buffer_same b s t : same_output s t -> same_output (with_buffer b s) (with_buffer b t).
Proof.
  intros (Hres & _ & Heq). repeat split; [exact Hres|].
  intros Hc. f_equal. now apply Heq.
Qed.

Section Chunking.

Variable JSON_parse : string -> option StreamChunk.

Lemma drain_closed lines s :
  closed s = true ->
  res (drain JSON_parse s lines) = res s /\ closed (drain JSON_parse s lines) = true.
Proof.
  intros Hc. destruct (closed_absorbs s _ Hc (drain_steps JSON_parse lines s)) as [Hc' Hout].
  split; [|exact Hc']. apply res_eq; congruence.
Qed.

Lemma handle_lines_drain lines s :
  same_output (handle_lines JSON_parse s lines) (drain JSON_parse s lines).
Proof.
  revert s; induction lines as [|line rest IH]; intros s; [apply same_output_refl|].
  rewrite drain_cons. cbn [handle_lines].
  pose proof (closed_handle_line JSON_parse s line) as Hclosed.
  rewrite <- returned_handle_line with (s := s) in Hclosed.
  destruct (handle_line JSON_parse s line) as [s' returned]; cbn [fst snd] in *.
  destruct returned; [|apply IH].
  rewrite orb_true_r in Hclosed.
  destruct (drain_closed rest s' Hclosed) as [Hres _].
  apply same_output_closed; [assumption | now symmetry|].
  symmetry. apply buffer_drain.
Qed.

Lemma drain_same lines s t :
  same_output s t -> same_output (drain JSON_parse s lines) (drain JSON_parse t lines).
Proof.
  intros (Hres & Hbuf & Heq). destruct (closed s) eqn:Hc.
  - assert (Hct : closed t = true) by (unfold closed in *; now rewrite <- Hres).
    destruct (drain_closed lines s Hc) as [Hs Hcs].
    destruct (drain_closed lines t Hct) as [Ht _].
    apply same_output_closed; [assumption | congruence|].
    now rewrite !buffer_drain.
  - rewrite (Heq eq_refl). apply same_output_refl.
Qed.

Lemma on_text_whole s text :
  same_output (on_text JSON_parse s text) (on_whole_text JSON_parse s text).
Proof.
  unfold on_text, on_whole_text. fold (lines_of (buffer s +:+ text)).
  fold (rest_of (buffer s +:+ text)). rewrite <- drain_with_buffer.
  apply handle_lines_drain.
Qed.

Lemma on_whole_text_same s t text :
  same_output s t ->
  same_output (on_whole_text JSON_parse s text) (on_whole_text JSON_parse t text).
Proof.
  intros Hst. pose proof Hst as (_ & Hbuf & _). unfold on_whole_text. rewrite Hbuf.
  now apply with_buffer_same, drain_same.
Qed.

Lemma on_whole_text_app s a b :
  on_whole_text JSON_parse (on_whole_text JSON_parse s a) b
  = on_whole_text JSON_parse s (a +:+ b).
Proof.
  unfold on_whole_text at 1.
  set (X := on_whole_text JSON_parse s a).
  assert (HbX : buffer X = rest_of (buffer s +:+ a)) by reflexivity.
  rewrite HbX. unfold X, on_whole_text. rewrite drain_with_buffer.
  rewrite <- (append_assoc (buffer s) a b), (lines_of_app (buffer s +:+ a) b),
    (rest_of_app (buffer s +:+ a) b), drain_app.
  reflexivity.
Qed.

Lemma on_whole_text_nil s : split_nl (buffer s) = [buffer s] -> on_whole_text JSON_parse s "" = s.
Proof.
  intros Hs. unfold on_whole_text, lines_of, rest_of.
  rewrite append_nil_r, Hs. cbn. now destruct s.
Qed.

Lemma buffer_on_text s text :
  buffer (on_text JSON_parse s text) = rest_of (buffer s +:+ text).
Proof.
  destruct (on_text_whole s text) as (_ & -> & _). reflexivity.
Qed.

Lemma chunks_whole texts s :
  split_nl (buffer s) = [buffer s] ->
  same_output (fold_left (on_text JSON_parse) texts s)
              (on_whole_text JSON_parse s (text_of texts)).
Proof.
  revert s; induction texts as [|text rest IH]; intros s Hs.
  - cbn [fold_left text_of fold_right]. rewrite on_whole_text_nil by assumption.
    apply same_output_refl.
  - cbn [fold_left text_of fold_right]. fold (text_of rest).
    rewrite <- on_whole_text_app.
    eapply same_output_trans.
    + apply IH. rewrite buffer_on_text. apply split_nl_rest.
    + apply on_whole_text_same, on_text_whole.
Qed.

(** The frames delivered, the end of the response and the pending line
    depend on the decoded texts only through their concatenation. *)
Lemma text_chunking anthropicReq now texts1 texts2 :
  text_of texts1 = text_of texts2 ->
  let s1 := fold_left (on_text JSON_parse) texts1 (initial anthropicReq now) in
  let s2 := fold_left (on_text JSON_parse) texts2 (initial anthropicReq now) in
  res s1 = res s2 /\ buffer s1 = buffer s2.
Proof.
  intros Heq s1 s2.
  pose proof (chunks_whole texts1 (initial anthropicReq now) eq_refl) as H1.
  pose proof (chunks_whole texts2 (initial anthropicReq now) eq_refl) as H2.
  rewrite Heq in H1.
  destruct (same_output_trans _ _ _ H1 (same_output_sym _ _ H2)) as (Hres & Hbuf & _).
  split; assumption.
Qed.

Lemma on_data_on_text chunks s :
  fold_left (on_data JSON_parse) chunks s
  = fold_left (on_text JSON_parse) (map Buffer_toString chunks) s.
Proof.
  revert s; induction chunks as [|chunk rest IH]; intros s; cbn; [reflexivity | apply IH].
Qed.

(** The response is closed while data arrives exactly when a complete line
    with a finish reason has been delivered. *)
Lemma closed_by_finish anthropicReq now chunks :
  closed (fold_left (on_data JSON_parse) chunks (initial anthropicReq now))
  = finish_received JSON_parse (response chunks stream_end).
Proof.
  rewrite on_data_on_text.
  destruct (chunks_whole (map Buffer_toString chunks) (initial anthropicReq now) eq_refl)
    as (Hres & _ & _).
  unfold closed. rewrite Hres. fold (closed (on_whole_text JSON_parse (initial anthropicReq now)
    (text_of (map Buffer_toString chunks)))).
  unfold on_whole_text.
  change (closed (with_buffer ?b ?s)) with (closed s).
  rewrite closed_drain. reflexivity.
Qed.

End Chunking.

(** ** The shape of the outbound sequence *)

Lemma writes_blocks t s : finishes t = false -> Forall block_frame (writes t s).
Proof.
  intros Hfin. apply List.Forall_forall. intros f Hf.
  apply in_writes in Hf
    as [(k & ->) | [(k & b & ->) | [(k & c & ->) | [(tc & _ & _ & ->) |
       [(tc & _ & _ & ->) | [(r & n & -> & _) | (r & -> & _)]]]]]];
    try exact I; discriminate.
Qed.

Lemma finish_stops_blocks s : Forall block_frame (finish_stops s).
Proof.
  apply List.Forall_forall. intros f Hf.
  apply in_finish_stops in Hf as [k ->]. exact I.
Qed.

Lemma shaped_transition first t s : shaped first s -> shaped first (apply_transition t s).
Proof.
  intros (body & Hbody & Hs). unfold shaped.
  rewrite out_transition, closed_transition.
  destruct Hs as [[Hc Hout] | [Hc (reason & tokens & Hout)]]; rewrite Hc; cbn [orb].
  - destruct (finishes t) eqn:Hfin.
    + destruct t; try discriminate. cbn [writes].
      exists (body ++ finish_stops s). split.
      * apply Forall_app. split; [assumption | apply finish_stops_blocks].
      * right. split; [reflexivity|]. exists reason, (outputTokens s).
        rewrite Hout. cbn [app]. now rewrite <- !app_assoc.
    + exists (body ++ writes t s). split.
      * apply Forall_app. split; [assumption | now apply writes_blocks].
      * left. split; [reflexivity|]. now rewrite Hout.
  - exists body. split; [assumption|]. right. split; [reflexivity|]. eauto.
Qed.

Lemma reachable_shaped anthropicReq now s :
  reachable anthropicReq now s ->
  shaped (message_start_frame ("msg_" +:+ now) (ar_model anthropicReq)) s.
Proof.
  unfold reachable. intros H. pattern s.
  eapply rtc_ind_r; [ | | exact H].
  - exists []. split; [constructor|]. left. split; reflexivity.
  - intros y z _ Hstep IH. apply step_transition in Hstep as [t ->].
    now apply shaped_transition.
Qed.

Lemma stream_without_finish :
  out (handleStreaming demo_JSON_parse demo_request "1"
         (response [data_line (content_payload "Hel")] stream_end))
  = [ message_start_frame "msg_1" "claude-sonnet-x";
      sseEvent "content_block_start" (content_block_start 0 (text_block ""));
      sseEvent "content_block_delta" (content_block_delta 0 (text_delta "Hel")) ] /\
  ~ In message_stop_frame
      (out (handleStreaming demo_JSON_parse demo_request "1"
              (response [data_line (content_payload "Hel")] stream_end))).
Proof.
  split; [vm_compute; reflexivity|].
  vm_compute. intros [H|[H|[H|[]]]]; discriminate.
Qed.

(** C3 (amended): [message_start], with zeroed usage and the request's own
    model identifier, is written before the backend is contacted and is the
    first frame of every streaming response; it is followed by content-block
    frames only; when the backend delivers a complete data line carrying a
    finish reason, the sequence then ends with exactly one [message_delta]
    immediately followed by exactly one [message_stop]; when it does not,
    the response is ended with neither of them. *)
Theorem stream_frame_sequence
    (JSON_parse : string -> option StreamChunk)
    (anthropicReq : AnthropicRequest) (now : string) (backend : Backend) :
  let first :=
    sseEvent "message_start"
      (message_start ("msg_" +:+ now) (ar_model anthropicReq) 0 0) in
  let final := handleStreaming JSON_parse anthropicReq now backend in
  out (initial anthropicReq now) = [first] /\
  closed final = true /\
  exists body,
    Forall block_frame body /\
    ((finish_received JSON_parse backend = false /\ out final = first :: body) \/
     (finish_received JSON_parse backend = true /\
      exists reason tokens,
        out final =
          first :: body ++ [message_delta_frame reason tokens; message_stop_frame])).
Proof.
  intros first final. split; [reflexivity|].
  destruct backend as [|chunks closing]; subst final; cbn [handleStreaming].
  - split; [now rewrite closed_settle|].
    exists []. split; [constructor|]. left. split; [reflexivity|].
    now rewrite out_settle.
  - split.
    { destruct closing; cbn [on_close]; rewrite closed_settle; [|reflexivity].
      set (s := fold_left _ _ _). unfold closed.
      destruct (writableEnded (res s)) eqn:E; [exact E | reflexivity]. }
    rewrite out_on_close.
    pose proof (reachable_shaped _ _ _ (data_reachable JSON_parse anthropicReq now chunks))
      as (body & Hbody & Hs).
    rewrite (closed_by_finish JSON_parse anthropicReq now chunks) in Hs.
    exists body. split; [assumption|]. exact Hs.
Qed.

(** ** The finish branch and the tool blocks *)

(** What the finish branch does while the response is open: the stop of
    the text block if it is open, the stops of [tool_stops], [message_delta]
    with the mapped stop reason and the output-token counter, [message_stop];
    then the response is ended and the promise resolved. *)
Lemma finish_branch s reason :
  closed s = false ->
  out (handle_finish s reason)
  = out s
    ++ (if textBlockStarted s then [stop_frame (currentBlockIndex s)] else [])
    ++ tool_stops s
    ++ [ sseEvent "message_delta"
           (message_delta (if String.eqb reason "tool_calls" then tool_use else end_turn)
              (outputTokens s));
         sseEvent "message_stop" message_stop ] /\
  closed (handle_finish s reason) = true /\
  (promise s = pending -> promise (handle_finish s reason) = resolved).
Proof.
  intros Hopen.
  change (handle_finish s reason) with (apply_transition (t_finish reason) s).
  rewrite out_transition, closed_transition, Hopen. cbn [writes finishes orb].
  unfold finish_stops. rewrite <- !app_assoc.
  repeat split.
  cbn [apply_transition]. rewrite handle_finish_eq. intros Hp.
  unfold settle. cbn [promise end_response with_res].
  rewrite promise_write_all, Hp. cbn. reflexivity.
Qed.

(** C1 (defect): a tool call with upstream index 0 is started at block 0
    and a finish reason follows; no [content_block_stop] is written for
    block 0. *)
Theorem started_tool_block_left_open :
  out (handleStreaming demo_JSON_parse demo_request "1"
         (response [data_line payload_named; data_line (payload_finish "tool_calls")]
            stream_end))
  = [ message_start_frame "msg_1" "claude-sonnet-x";
      sseEvent "content_block_start"
        (content_block_start 0 (tool_use_block "call_1" "get_weather" empty_object));
      sseEvent "message_delta" (message_delta tool_use 0);
      message_stop_frame ].
Proof. vm_compute. reflexivity. Qed.

Lemma Map_get_in i (m : list (Z * ToolCall)) :
  Map_get i m <> None <-> exists toolCall, In (i, toolCall) m.
Proof.
  induction m as [|[k v] m IH]; cbn.
  - split; [congruence | intros [? []]].
  - destruct (Z.eqb_spec k i) as [->|Hne].
    + split; [eauto | discriminate].
    + rewrite IH. split; intros [w Hw]; exists w; [now right|].
      destruct Hw as [Hw|Hw]; [congruence | assumption].
Qed.

(** Which started tool blocks the loop of the finish branch stops: the
    block of the upstream index [j] gets its [content_block_stop] from it
    exactly when [j - 1] is a known upstream index too. *)
Lemma tool_stop_off_by_one anthropicReq now s j :
  reachable anthropicReq now s ->
  name_so_far s j <> "" ->
  In (stop_frame (currentBlockIndex s + j)) (tool_stops s) <->
  exists i, j = (i + 1)%Z /\ Map_get i (toolCalls s) <> None.
Proof.
  intros Hreach Hname.
  pose proof (reachable_tools_indexed _ _ _ Hreach) as Hinv.
  assert (Hstarted : (currentBlockIndex s + j)%Z ∈ toolBlocksStarted s)
    by (apply Hinv; eauto).
  unfold tool_stops. rewrite in_map_iff. split.
  - intros (k & Hk & Hin). injection Hk as Hk.
    apply filter_In in Hin as [Hin _].
    apply in_map_iff in Hin as ([i v] & Hi & Hin). cbn [fst] in Hi.
    exists i. split; [lia|]. apply Map_get_in. eauto.
  - intros (i & -> & Hget). apply Map_get_in in Hget as [v Hv].
    exists (currentBlockIndex s + (i + 1))%Z. split; [reflexivity|].
    apply filter_In. split.
    + apply in_map_iff. exists (i, v). split; [cbn; lia | assumption].
    + now apply bool_decide_eq_true.
Qed.

Example two_tool_blocks_one_stop :
  out (handleStreaming demo_JSON_parse demo_request "1"
         (response [data_line payload_named; data_line payload_second;
                    data_line (payload_finish "tool_calls")] stream_end))
  = [ message_start_frame "msg_1" "claude-sonnet-x";
      sseEvent "content_block_start"
        (content_block_start 0 (tool_use_block "call_1" "get_weather" empty_object));
      sseEvent "content_block_start"
        (content_block_start 1 (tool_use_block "call_2" "get_time" empty_object));
      stop_frame 1;
      sseEvent "message_delta" (message_delta tool_use 0);
      message_stop_frame ].
Proof. vm_compute. reflexivity. Qed.

(** ** Chunk boundaries in an ASCII stream *)

Lemma decode_ascii (chunk : Buffer) :
  ascii_only chunk -> Utf8.decode Utf8.idle chunk = chunk.
Proof.
  induction 1 as [|b rest Hb _ IH]; [reflexivity|].
  cbn [Utf8.decode]. unfold Utf8.step. cbn [Utf8.needed Utf8.idle].
  unfold Utf8.lead. rewrite Hb. cbn [app]. now rewrite IH.
Qed.

Lemma string_of_bytes_app (a b : list byte) :
  str_of_bytes (a ++ b) = str_of_bytes a +:+ str_of_bytes b.
Proof.
  unfold str_of_bytes, string_of_list_byte.
  induction a as [|x a IH]; [reflexivity|].
  cbn [map app string_of_list_ascii]. rewrite IH. reflexivity.
Qed.

Lemma text_of_ascii (chunks : list Buffer) :
  Forall ascii_only chunks ->
  text_of (map Buffer_toString chunks) = str_of_bytes (concat chunks).
Proof.
  induction 1 as [|chunk rest Hc _ IH]; [reflexivity|].
  cbn [map text_of fold_right concat]. fold (text_of (map Buffer_toString rest)).
  rewrite IH, string_of_bytes_app. unfold Buffer_toString. now rewrite decode_ascii.
Qed.

(** For ASCII streams the frames delivered depend on the bytes only
    through their concatenation. *)
Lemma ascii_chunking JSON_parse anthropicReq now (chunks1 chunks2 : list Buffer) :
  Forall ascii_only chunks1 -> Forall ascii_only chunks2 ->
  concat chunks1 = concat chunks2 ->
  res (fold_left (on_data JSON_parse) chunks1 (initial anthropicReq now))
  = res (fold_left (on_data JSON_parse) chunks2 (initial anthropicReq now)).
Proof.
  intros H1 H2 Heq. rewrite !on_data_on_text.
  apply text_chunking. rewrite !text_of_ascii by assumption. now rewrite Heq.
Qed.

(** ** Lines that are skipped *)

(** A line without the data marker, a [DONE] payload and a payload that
    does not parse leave the state as it is, and the stream goes on. *)
Lemma ignored_lines (JSON_parse : string -> option StreamChunk) s line :
  (startsWith line "data: " = false -> handle_line JSON_parse s line = (s, false)) /\
  (trim (slice 6 line) = "[DONE]" -> handle_line JSON_parse s line = (s, false)) /\
  (JSON_parse (trim (slice 6 line)) = None -> handle_line JSON_parse s line = (s, false)).
Proof.
  unfold handle_line. repeat split.
  - now intros ->.
  - intros ->. now destruct (negb _).
  - intros ->. destruct (negb _); [reflexivity|]. now destruct (String.eqb _ _).
Qed.

(** ** Chunk boundaries inside a character *)

(** C5 (defect): the same bytes, delivered whole or cut between the two
    bytes of a character, give different text deltas. *)
Theorem split_character_changes_output :
  split_first ++ split_second = data_line (content_payload e_acute) /\
  out (handleStreaming demo_JSON_parse demo_request "1"
         (response [split_first ++ split_second] stream_end))
  = [ message_start_frame "msg_1" "claude-sonnet-x";
      sseEvent "content_block_start" (content_block_start 0 (text_block ""));
      sseEvent "content_block_delta" (content_block_delta 0 (text_delta e_acute)) ] /\
  out (handleStreaming demo_JSON_parse demo_request "1"
         (response [split_first; split_second] stream_end))
  = [ message_start_frame "msg_1" "claude-sonnet-x";
      sseEvent "content_block_start" (content_block_start 0 (text_block ""));
      sseEvent "content_block_delta"
        (content_block_delta 0 (text_delta (replacement_char +:+ replacement_char))) ].
Proof. vm_compute. repeat split. Qed.

(** ** Examples *)

(** Two text deltas and a finish reason. *)
Example text_stream :
  out (handleStreaming demo_JSON_parse demo_request "1"
         (response [data_line (content_payload "Hel"); data_line (content_payload "lo");
                    data_line (payload_finish "stop")] stream_end))
  = [ message_start_frame "msg_1" "claude-sonnet-x";
      sseEvent "content_block_start" (content_block_start 0 (text_block ""));
      sseEvent "content_block_delta" (content_block_delta 0 (text_delta "Hel"));
      sseEvent "content_block_delta" (content_block_delta 0 (text_delta "lo"));
      stop_frame 0;
      sseEvent "message_delta" (message_delta end_turn 2);
      message_stop_frame ].
Proof. vm_compute. reflexivity. Qed.

(** Arguments that arrive before the name are not sent. *)
Example early_arguments_stream :
  out (handleStreaming demo_JSON_parse demo_request "1"
         (response [data_line payload_early_arguments; data_line payload_named;
                    data_line payload_late_arguments] stream_end))
  = [ message_start_frame "msg_1" "claude-sonnet-x";
      sseEvent "content_block_start"
        (content_block_start 0 (tool_use_block "call_1" "get_weather" empty_object));
      tool_delta_frame 0 ":1}" ].
Proof. vm_compute. reflexivity. Qed.

(** * Further properties of the translators *)

(** ** Messages *)

(** X1: the backend message list is the system prompt, when it is a
    non-empty string, followed by one message per inbound message, in order
    and with the same role; a missing or empty system prompt adds nothing. *)
Theorem convertMessages_shape (messages : list AnthropicMessage) (sys : option string) :
  convertMessages messages sys
  = (match sys with
     | Some (String a s) => [ {| om_role := system; om_content := String a s |} ]
     | _ => []
     end)
    ++ map (fun m => {| om_role := am_role m; om_content := flattened (am_content m) |})
         messages /\
  length (convertMessages messages sys)
  = length messages + (if truthy_str sys then 1 else 0) /\
  map om_role (convertMessages messages None) = map am_role messages.
Proof.
  assert (H : forall sys0, convertMessages messages sys0
    = (match sys0 with
       | Some (String a s) => [ {| om_role := system; om_content := String a s |} ]
       | _ => []
       end)
      ++ map (fun m => {| om_role := am_role m; om_content := flattened (am_content m) |})
           messages).
  { intros sys0. unfold convertMessages. destruct sys0 as [[|a s]|]; reflexivity. }
  split; [apply H|]. split.
  - rewrite H, length_app, length_map.
    destruct sys as [[|a s]|]; cbn; lia.
  - rewrite H. cbn. rewrite map_map. reflexivity.
Qed.

Lemma join_nl_snoc (parts : list string) (p : string) :
  parts <> [] -> join_nl (parts ++ [p]) = join_nl parts +:+ String "010" p.
Proof.
  induction parts as [|q parts IH]; [congruence|]. intros _.
  destruct parts as [|r parts]; [reflexivity|].
  change (join_nl ((q :: r :: parts) ++ [p]))
    with (q +:+ String "010" (join_nl ((r :: parts) ++ [p]))).
  rewrite IH by discriminate.
  change (join_nl (q :: r :: parts)) with (q +:+ String "010" (join_nl (r :: parts))).
  rewrite append_assoc. reflexivity.
Qed.

Lemma flattened_blocks (blocks : list InBlock) :
  flattened (ContentBlocks blocks)
  = join_nl (map (fun b => or_str (blk_text b) "") (List.filter is_text blocks)).
Proof. reflexivity. Qed.

Lemma filter_filter_text (blocks : list InBlock) :
  List.filter is_text (List.filter is_text blocks) = List.filter is_text blocks.
Proof.
  induction blocks as [|b blocks IH]; [reflexivity|]. cbn.
  destruct (is_text b) eqn:Hb; cbn; [rewrite Hb; f_equal|]; exact IH.
Qed.

(** X2: how a message's content is flattened. A string is copied as it is;
    of a block list only the blocks of type text count, so dropping the
    others changes nothing and a list without text blocks gives the empty
    string; a text block without text counts as the empty string; and each
    further text block adds a line feed and its text. *)
Theorem content_flattening :
  (forall s, flattened (ContentString s) = s) /\
  (forall blocks,
      flattened (ContentBlocks blocks)
      = flattened (ContentBlocks (List.filter is_text blocks))) /\
  (forall blocks, Forall (fun b => is_text b = false) blocks ->
                  flattened (ContentBlocks blocks) = "") /\
  (forall text, flattened (ContentBlocks [ {| blk_type := "text"; blk_text := text |} ])
                = or_str text "") /\
  (forall blocks b,
      is_text b = true -> Exists (fun b' => is_text b' = true) blocks ->
      flattened (ContentBlocks (blocks ++ [b]))
      = flattened (ContentBlocks blocks) +:+ String "010" (or_str (blk_text b) "")).
Proof.
  repeat split.
  - intros blocks. now rewrite !flattened_blocks, filter_filter_text.
  - intros blocks Hall. rewrite flattened_blocks.
    replace (List.filter is_text blocks) with (@nil InBlock); [reflexivity|].
    induction Hall as [|b blocks Hb _ IH]; [reflexivity|]. cbn. now rewrite Hb.
  - intros blocks b Hb Hex. rewrite !flattened_blocks, List.filter_app. cbn [List.filter].
    rewrite Hb, List.map_app. cbn [map]. apply join_nl_snoc.
    intros Hnil. apply List.map_eq_nil in Hnil.
    apply List.Exists_exists in Hex as (b' & Hin & Hb').
    assert (Hin' : In b' (List.filter is_text blocks)) by (apply filter_In; auto).
    rewrite Hnil in Hin'. destruct Hin'.
Qed.

Lemma content_flattening_witness :
  flattened (ContentBlocks
               ([ {| blk_type := "text"; blk_text := Some "a" |};
                  {| blk_type := "image"; blk_text := None |} ]
                ++ [ {| blk_type := "text"; blk_text := Some "b" |} ]))
  = "a" +:+ String "010" "b".
Proof.
  rewrite (proj2 (proj2 (proj2 (proj2 content_flattening)))
             [ {| blk_type := "text"; blk_text := Some "a" |};
               {| blk_type := "image"; blk_text := None |} ]
             {| blk_type := "text"; blk_text := Some "b" |}).
  - reflexivity.
  - reflexivity.
  - constructor. reflexivity.
Defined.

(** ** Tools *)

(** X3: the backend request carries tools and a tool choice exactly when the
    inbound request has at least one tool; the choice is then "auto" and the
    tools are the inbound ones in order, each as a function with the same
    name, its description or the empty string, and its schema or the empty
    object schema. *)
Theorem tools_translation (azure : AzureConfig) (anthropicReq : AnthropicRequest) :
  let translated := openaiReq azure anthropicReq in
  ((ar_tools anthropicReq = None \/ ar_tools anthropicReq = Some []) ->
   oa_tools translated = None /\ oa_tool_choice translated = None) /\
  (forall tool tools,
      ar_tools anthropicReq = Some (tool :: tools) ->
      oa_tool_choice translated = Some "auto" /\
      exists converted,
        oa_tools translated = Some converted /\
        length converted = length (tool :: tools) /\
        forall n t,
          (tool :: tools) !! n = Some t ->
          converted !! n
          = Some {| ot_type := "function";
                    ot_function :=
                      {| fn_name := tool_name t;
                         fn_description :=
                           match tool_description t with
                           | Some (String a d) => String a d
                           | _ => ""
                           end;
                         fn_parameters :=
                           match tool_input_schema t with
                           | Some schema =>
                               if truthy_json schema then schema else default_schema
                           | None => default_schema
                           end |} |}).
Proof.
  intros translated. split.
  - intros [H|H]; subst translated; unfold openaiReq; rewrite H; split; reflexivity.
  - intros tool tools H. subst translated. unfold openaiReq. rewrite H. cbn.
    split; [reflexivity|]. eexists. split; [reflexivity|]. split.
    + cbn. now rewrite length_map.
    + intros n t Hn.
      change (convertTools (tool :: tools) !! n = Some
        {| ot_type := "function";
           ot_function :=
             {| fn_name := tool_name t;
                fn_description := or_str (tool_description t) "";
                fn_parameters := or_json (tool_input_schema t) default_schema |} |}).
      unfold convertTools. rewrite list_lookup_fmap' || rewrite list_lookup_fmap.
      now rewrite Hn.
Qed.

(** ** Routing *)

(** X4: a request gets past the three routing tests of [createProxy], to
    the reading of its body, exactly when its method is POST and its URL
    contains "/messages". The tests are the only way to the body parser and
    to the translators, so no other request reaches them; whether such a
    POST does reach a translator depends on its body and is not part of
    this property. *)
Theorem messages_route (method url : option string) :
  route method url = messages_endpoint <->
  method = Some "POST" /\ exists u, url = Some u /\ contains u "/messages".
Proof.
  unfold route. split.
  - destruct (is_string method "OPTIONS"); [discriminate|].
    destruct (is_string url "/health"); [discriminate|].
    destruct (is_string method "POST") eqn:Hm; [|discriminate]. cbn [negb orb].
    destruct (url_includes url "/messages") eqn:Hu; [|discriminate]. intros _.
    destruct method as [m|]; [|discriminate]. apply String.eqb_eq in Hm as ->.
    split; [reflexivity|].
    destruct url as [u|]; [|discriminate]. exists u. split; [reflexivity|].
    now apply includes_spec.
  - intros (-> & u & -> & Hu). apply includes_spec in Hu.
    cbn [is_string url_includes]. rewrite Hu.
    destruct (String.eqb_spec u "/health") as [->|_]; [discriminate Hu | reflexivity].
Qed.

Lemma messages_route_witness :
  route (Some "POST") (Some "/v1/messages?beta=true") = messages_endpoint.
Proof.
  apply messages_route. split; [reflexivity|].
  eexists. split; [reflexivity|]. apply includes_spec. reflexivity.
Defined.

(** X5: the order of the routes. OPTIONS is answered 204 whatever the URL;
    "/health" (the URL exactly) is answered 200 for every other method, POST
    included; every request left that is not a POST to a URL containing
    "/messages" is answered 404; and each of these replies carries the three
    CORS headers. *)
Theorem route_order :
  (forall url, route (Some "OPTIONS") url = preflight) /\
  (forall method, method <> Some "OPTIONS" ->
                  route method (Some "/health") = health_check) /\
  (forall method url,
      route method url = not_found <->
      method <> Some "OPTIONS" /\ url <> Some "/health" /\
      (method <> Some "POST" \/ url_includes url "/messages" = false)) /\
  (forall r reply,
      direct_reply r = Some reply ->
      rp_status reply = match r with
                        | preflight => 204
                        | health_check => 200
                        | _ => 404
                        end /\
      forall header,
        In header [ ("Access-Control-Allow-Origin", "*");
                    ("Access-Control-Allow-Methods", "GET, POST, OPTIONS");
                    ("Access-Control-Allow-Headers", "*") ] ->
        In header (rp_headers reply)).
Proof.
  assert (Hstr : forall o m, is_string o m = true <-> o = Some m).
  { intros [s|] m; cbn; [|split; discriminate].
    rewrite String.eqb_eq. split; [now intros -> | now intros [= ->]]. }
  assert (Hnot : forall o m, is_string o m = false <-> o <> Some m).
  { intros o m. rewrite <- Hstr. destruct (is_string o m); split; congruence. }
  repeat split.
  - intros method Hm. unfold route. apply Hnot in Hm. now rewrite Hm.
  - apply Hnot. revert H. unfold route. now destruct (is_string method "OPTIONS").
  - apply Hnot. revert H. unfold route. destruct (is_string method "OPTIONS"); [discriminate|].
    now destruct (is_string url "/health").
  - revert H. unfold route. destruct (is_string method "OPTIONS"); [discriminate|].
    destruct (is_string url "/health"); [discriminate|].
    destruct (is_string method "POST") eqn:Hp.
    + destruct (url_includes url "/messages"); [discriminate | now right].
    + intros _. left. now apply Hnot.
  - intros (Hm & Hu & Hrest). unfold route.
    apply Hnot in Hm, Hu. rewrite Hm, Hu.
    destruct Hrest as [Hp|Hi].
    + apply Hnot in Hp. now rewrite Hp.
    + rewrite Hi. now rewrite orb_true_r.
  - destruct r; cbn in H; try discriminate; injection H as <-; reflexivity.
  - intros header Hin. destruct r; cbn in H; try discriminate; injection H as <-;
      cbn in Hin |- *; tauto.
Qed.

Lemma route_order_witness : route (Some "POST") (Some "/health") = health_check.
Proof. apply (proj1 (proj2 route_order)). discriminate. Defined.

(** ** Configuration *)

(** X17: after [clearConfig] nothing is configured; a configuration written
    to a cleared store is read back as it was written. *)
Theorem config_round_trip (newConfig : AppConfig) (config : Store) :
  getConfig (clearConfig config) = None /\
  configExists (clearConfig config) = false /\
  configExists (setConfig newConfig config) = true /\
  getConfig (setConfig newConfig (clearConfig config)) = Some newConfig.
Proof. repeat split. now destruct newConfig as [p [a|] [o|] [n|]]. Qed.

(** X18: [setConfig] does not remove what it is not given: the provider
    read back is the new one, a section the new configuration has is the new
    one, and a section it lacks is read back as it was stored before. So the
    configuration is read back unchanged exactly when the store holds
    nothing under the sections the new configuration lacks. *)
Theorem setConfig_keeps_other_sections (newConfig : AppConfig) (config : Store) :
  exists stored,
    getConfig (setConfig newConfig config) = Some stored /\
    cfg_provider stored = cfg_provider newConfig /\
    cfg_azure stored = keep_or_set (cfg_azure newConfig) (st_azure config) /\
    cfg_openai stored = keep_or_set (cfg_openai newConfig) (st_openai config) /\
    cfg_anthropic stored = keep_or_set (cfg_anthropic newConfig) (st_anthropic config) /\
    (stored = newConfig <->
     (cfg_azure newConfig = None -> st_azure config = None) /\
     (cfg_openai newConfig = None -> st_openai config = None) /\
     (cfg_anthropic newConfig = None -> st_anthropic config = None)).
Proof.
  eexists. do 5 (split; [reflexivity|]). split.
  - intros Heq. destruct newConfig as [p a o n]; cbn in *.
    injection Heq as Ha Ho Hn.
    repeat split; intros ->; cbn in *; assumption.
  - intros (Ha & Ho & Hn). destruct newConfig as [p a o n]; cbn in *. f_equal.
    + destruct a; [reflexivity | now rewrite Ha].
    + destruct o; [reflexivity | now rewrite Ho].
    + destruct n; [reflexivity | now rewrite Hn].
Qed.

Example switching_provider_keeps_credentials :
  getConfig (setConfig demo_anthropic_config (setConfig demo_azure_config empty_store))
  = Some {| cfg_provider := provider_anthropic; cfg_azure := Some demo_azure;
            cfg_openai := None; cfg_anthropic := Some {| ac_apiKey := "sk-ant-1" |} |}.
Proof. reflexivity. Qed.

(** ** The non-streaming path: outcomes and content *)

Lemma tool_uses_of_cases JSON_parse_value (tool_calls : list ToolCallMessage) :
  (Forall (fun tc => tcm_function tc <> None) tool_calls /\
   exists blocks,
     tool_uses_of JSON_parse_value tool_calls = returned blocks /\
     Forall2 (tool_use_for JSON_parse_value) tool_calls blocks) \/
  (Exists (fun tc => tcm_function tc = None) tool_calls /\
   tool_uses_of JSON_parse_value tool_calls
   = thrown "Cannot read properties of undefined (reading 'name')").
Proof.
  induction tool_calls as [|tc rest IH].
  - left. split; [constructor|]. exists []. split; [reflexivity | constructor].
  - cbn [tool_uses_of]. unfold tool_use_of.
    destruct (tcm_function tc) as [fn|] eqn:Hfn.
    + destruct IH as [(Hall & blocks & -> & Hrel) | (Hex & ->)].
      * left. split; [constructor; [congruence | assumption]|].
        eexists. split; [reflexivity|]. constructor; [|assumption].
        exists fn. split; [assumption | reflexivity].
      * right. split; [|reflexivity]. now apply Exists_cons_tl.
    + right. split; [|reflexivity]. now apply Exists_cons_hd.
Qed.

Lemma Exists_not_Forall (tool_calls : list ToolCallMessage) :
  Exists (fun tc => tcm_function tc = None) tool_calls ->
  ~ Forall (fun tc => tcm_function tc <> None) tool_calls.
Proof.
  intros Hex Hall. apply List.Exists_exists in Hex as (tc & Hin & Hnone).
  rewrite List.Forall_forall in Hall. exact (Hall tc Hin Hnone).
Qed.

(** X6: what [handleNonStreaming] itself writes, and how its promise
    settles, once the backend request has failed or the backend response
    has ended. The client gets status 200, content type application/json
    and a message, and the promise resolves, exactly when the body parses
    to a completion that has a first choice all of whose tool calls carry
    their [function]. In every other case it gets status 500, content type
    application/json and the body [{error: message}], and the promise is
    rejected; the message is the parser's own when the body does not parse,
    "No response from Azure" when there is no first choice, the text of the
    TypeError raised by reading [name] when a tool call lacks [function],
    and the error's message when the backend request failed. *)
Theorem non_streaming_outcome
    (JSON_parse_body : string -> Completed Completion)
    (JSON_parse_value : string -> option json)
    (anthropicReq : AnthropicRequest) (now : string) (chunks : list Buffer) :
  let parsed := JSON_parse_body (body_text chunks) in
  let answered := exists data, parsed = returned data /\ answerable data in
  let result :=
    handleNonStreaming JSON_parse_body JSON_parse_value anthropicReq now
      (ns_response chunks) in
  let failed message :=
    result = ({| status := 500; content_type := "application/json";
                 body := error_body message |}, rejected) in
  ((exists message,
       result = ({| status := 200; content_type := "application/json";
                    body := message_body message |}, resolved)) <-> answered) /\
  ((exists message, failed message) <-> ~ answered) /\
  (forall message, parsed = thrown message -> failed message) /\
  (forall data,
      parsed = returned data -> nullish (cp_choices data) [] = [] ->
      failed "No response from Azure") /\
  (forall data choice rest tool_calls,
      parsed = returned data ->
      nullish (cp_choices data) [] = choice :: rest ->
      c_message choice ≫= bm_tool_calls = Some tool_calls ->
      Exists (fun tc => tcm_function tc = None) tool_calls ->
      failed "Cannot read properties of undefined (reading 'name')") /\
  (forall message,
      handleNonStreaming JSON_parse_body JSON_parse_value anthropicReq now
        (ns_request_error message)
      = ({| status := 500; content_type := "application/json";
            body := error_body message |}, rejected)).
Proof.
  intros parsed answered result failed.
  assert (Hthrown : forall message, parsed = thrown message -> failed message).
  { intros message Hp. subst failed result parsed. cbn [handleNonStreaming].
    unfold translate_body. now rewrite Hp. }
  assert (Hnone : forall data,
             parsed = returned data -> nullish (cp_choices data) [] = [] ->
             failed "No response from Azure").
  { intros data Hp Hc. subst failed result parsed. cbn [handleNonStreaming].
    unfold translate_body. rewrite Hp. cbn [mbind Completed_bind]. now rewrite Hc. }
  assert (Hname : forall data choice rest tool_calls,
             parsed = returned data ->
             nullish (cp_choices data) [] = choice :: rest ->
             c_message choice ≫= bm_tool_calls = Some tool_calls ->
             Exists (fun tc => tcm_function tc = None) tool_calls ->
             failed "Cannot read properties of undefined (reading 'name')").
  { intros data choice rest tool_calls Hp Hc Htools Hex.
    subst failed result parsed. cbn [handleNonStreaming].
    unfold translate_body. rewrite Hp. cbn [mbind Completed_bind]. rewrite Hc, Htools.
    destruct (tool_uses_of_cases JSON_parse_value tool_calls) as [(Hall & _) | (_ & ->)];
      [now destruct (Exists_not_Forall _ Hex) | reflexivity]. }
  assert (Hcases :
    (answered /\
     exists message,
       result = ({| status := 200; content_type := "application/json";
                    body := message_body message |}, resolved)) \/
    (~ answered /\ exists message, failed message)).
  { destruct parsed as [data|m] eqn:Hparse.
    2:{ right. split; [intros (data & Hd & _); discriminate | eauto]. }
    destruct (nullish (cp_choices data) []) as [|choice rest] eqn:Hchoice.
    { right. split; [|eauto]. intros (d & Hd & c & r & Hc & _).
      injection Hd as <-. congruence. }
    destruct (c_message choice ≫= bm_tool_calls) as [tool_calls|] eqn:Htools.
    - destruct (tool_uses_of_cases JSON_parse_value tool_calls)
        as [(Hall & blocks & Hb & _) | (Hex & _)].
      + left. split.
        * exists data. split; [reflexivity|].
          exists choice, rest. split; [assumption|]. intros tcs Htcs.
          assert (tcs = tool_calls) by congruence. now subst tcs.
        * subst result. cbn [handleNonStreaming]. unfold translate_body.
          fold parsed. rewrite Hparse. cbn [mbind Completed_bind].
          rewrite Hchoice, Htools, Hb. cbn [mbind Completed_bind]. eauto.
      + right. split; [|eauto]. intros (d & Hd & c & r & Hc & Hall).
        injection Hd as <-. rewrite Hchoice in Hc. injection Hc as <- <-.
        exact (Exists_not_Forall _ Hex (Hall _ Htools)).
    - left. split.
      + exists data. split; [reflexivity|]. exists choice, rest. split; [assumption|].
        intros tcs Htcs. congruence.
      + subst result. cbn [handleNonStreaming]. unfold translate_body.
        fold parsed. rewrite Hparse. cbn [mbind Completed_bind].
        rewrite Hchoice, Htools. cbn [mbind Completed_bind]. eauto. }
  split; [|split; [|split; [|split; [|split]]]]; try assumption; [| |reflexivity].
  - split; [|tauto]. intros [message Hm].
    destruct Hcases as [[H _]|[_ [m' Hm']]]; [assumption|].
    unfold failed in Hm'. rewrite Hm in Hm'. discriminate.
  - split; [|tauto]. intros [message Hm].
    destruct Hcases as [[_ [m' Hm']]|[H _]]; [|assumption].
    unfold failed in Hm. rewrite Hm in Hm'. discriminate.
Qed.

(** A tool call without [function]: the answer is a 500 whose message is
    the one of reading [name]. *)
Example tool_call_without_function :
  handleNonStreaming demo_JSON_parse_nameless demo_JSON_parse_value demo_request "1"
    (ns_response [list_byte_of_string payload_nameless])
  = ({| status := 500; content_type := "application/json";
        body := error_body "Cannot read properties of undefined (reading 'name')" |},
     rejected).
Proof. vm_compute. reflexivity. Qed.

(** X7: what an answered completion is translated to. The content is the
    text block, present exactly when the backend message has non-empty
    text, followed by one tool_use block per tool call in order, each with
    the call's id and name and the parsed arguments as input; the model is
    the request's own identifier, the stop reason is tool_use exactly for
    the finish reason "tool_calls", and the token counts are the reported
    ones, 0 when absent. *)
Theorem non_streaming_content
    (JSON_parse_body : string -> Completed Completion)
    (JSON_parse_value : string -> option json)
    (anthropicReq : AnthropicRequest) (now : string) (chunks : list Buffer)
    (data : Completion) (choice : Choice) (rest : list Choice) :
  JSON_parse_body (body_text chunks) = returned data ->
  nullish (cp_choices data) [] = choice :: rest ->
  (forall tool_calls,
      c_message choice ≫= bm_tool_calls = Some tool_calls ->
      Forall (fun tc => tcm_function tc <> None) tool_calls) ->
  exists response blocks,
    handleNonStreaming JSON_parse_body JSON_parse_value anthropicReq now
      (ns_response chunks) = (ok_response response, resolved) /\
    rsp_content response
    = (match c_message choice ≫= bm_content with
       | Some (String a t) => [Text (String a t)]
       | _ => []
       end) ++ blocks /\
    Forall2 (tool_use_for JSON_parse_value)
      (match c_message choice ≫= bm_tool_calls with
       | Some tool_calls => tool_calls
       | None => []
       end) blocks /\
    rsp_id response = "msg_" +:+ now /\
    rsp_model response = ar_model anthropicReq /\
    (rsp_stop_reason response = tool_use <-> c_finish_reason choice = Some "tool_calls") /\
    rsp_input_tokens response
    = (match cp_usage data ≫= prompt_tokens with Some n => n | None => 0 end) /\
    rsp_output_tokens response
    = (match cp_usage data ≫= completion_tokens with Some n => n | None => 0 end).
Proof.
  intros Hparse Hchoice Hall.
  assert (Htokens : forall o, or_nat o 0 = match o with Some n => n | None => 0 end).
  { now intros [[|n]|]. }
  assert (Hstop : (if String.eqb (or_str (c_finish_reason choice) "") "tool_calls"
                   then tool_use else end_turn) = tool_use
                  <-> c_finish_reason choice = Some "tool_calls").
  { destruct (c_finish_reason choice) as [[|a r]|]; cbn [or_str].
    - split; discriminate.
    - destruct (String.eqb_spec (String a r) "tool_calls") as [->|Hne].
      + split; reflexivity.
      + split; [discriminate | intros H; exfalso; apply Hne; congruence].
    - split; discriminate. }
  cbn [handleNonStreaming]. unfold translate_body.
  rewrite Hparse. cbn [mbind Completed_bind]. rewrite Hchoice.
  destruct (c_message choice ≫= bm_tool_calls) as [tool_calls|] eqn:Htools.
  - destruct (tool_uses_of_cases JSON_parse_value tool_calls)
      as [(_ & blocks & -> & Hrel) | (Hnot & _)].
    + cbn [mbind Completed_bind]. eexists _, blocks.
      split; [reflexivity|]. cbn.
      rewrite !Htokens. repeat split; try assumption; apply Hstop.
    + exfalso. exact (Exists_not_Forall _ Hnot (Hall _ eq_refl)).
  - cbn [mbind Completed_bind]. eexists _, [].
    split; [reflexivity|]. cbn.
    rewrite !Htokens. repeat split; try constructor; apply Hstop.
Qed.

Lemma non_streaming_content_witness :
  exists response blocks,
    handleNonStreaming demo_JSON_parse_reply demo_JSON_parse_value demo_request "1"
      (ns_response [list_byte_of_string payload_weather]) = (ok_response response, resolved) /\
    rsp_content response = [Text "Sure"] ++ blocks /\
    Forall2 (tool_use_for demo_JSON_parse_value)
      [ {| tcm_id := Some "call_1";
           tcm_function :=
             Some {| fd_name := Some "get_weather";
                     fd_arguments := Some (json_text "{'city':'Paris'}") |} |} ] blocks.
Proof.
  destruct (non_streaming_content demo_JSON_parse_reply demo_JSON_parse_value
              demo_request "1" [list_byte_of_string payload_weather] completion_weather
              {| c_message :=
                   Some {| bm_content := Some "Sure";
                           bm_tool_calls :=
                             Some [ {| tcm_id := Some "call_1";
                                       tcm_function :=
                                         Some {| fd_name := Some "get_weather";
                                                 fd_arguments :=
                                                   Some (json_text "{'city':'Paris'}") |} |} ] |};
                 c_finish_reason := Some "tool_calls" |} [])
    as (response & blocks & H1 & H2 & H3 & _).
  - vm_compute. reflexivity.
  - reflexivity.
  - intros tool_calls [= <-]. repeat constructor. discriminate.
  - exists response, blocks. repeat split; assumption.
Defined.

Example weather_reply :
  handleNonStreaming demo_JSON_parse_reply demo_JSON_parse_value demo_request "1"
    (ns_response [list_byte_of_string payload_weather])
  = (ok_response
       {| rsp_id := "msg_1";
          rsp_content :=
            [ Text "Sure";
              ToolUse (Some "call_1") (Some "get_weather")
                (JObject [("city", JString "Paris")]) ];
          rsp_model := "claude-sonnet-x";
          rsp_stop_reason := tool_use;
          rsp_input_tokens := 9;
          rsp_output_tokens := 4 |}, resolved).
Proof. vm_compute. reflexivity. Qed.

(** ** The non-streaming path: chunk boundaries *)

Lemma body_text_eq (chunks : list Buffer) :
  body_text chunks = text_of (map Buffer_toString chunks).
Proof.
  unfold body_text.
  assert (H : forall init,
    fold_left (fun acc chunk => acc +:+ Buffer_toString chunk) chunks init
    = init +:+ text_of (map Buffer_toString chunks)).
  { induction chunks as [|chunk rest IH]; intros init; cbn [fold_left map text_of fold_right].
    - now rewrite append_nil_r.
    - fold (text_of (map Buffer_toString rest)). rewrite IH. apply append_assoc. }
  apply H.
Qed.

(** X8: when the backend sends ASCII bytes only, the non-streaming answer
    depends on the chunks only through their concatenation. *)
Theorem non_streaming_ascii_chunking
    (JSON_parse_body : string -> Completed Completion)
    (JSON_parse_value : string -> option json)
    (anthropicReq : AnthropicRequest) (now : string) (chunks1 chunks2 : list Buffer) :
  Forall ascii_only chunks1 -> Forall ascii_only chunks2 ->
  concat chunks1 = concat chunks2 ->
  handleNonStreaming JSON_parse_body JSON_parse_value anthropicReq now (ns_response chunks1)
  = handleNonStreaming JSON_parse_body JSON_parse_value anthropicReq now (ns_response chunks2).
Proof.
  intros H1 H2 Heq. cbn [handleNonStreaming].
  now rewrite !body_text_eq, !text_of_ascii, Heq by assumption.
Qed.

Lemma non_streaming_ascii_chunking_witness :
  handleNonStreaming demo_JSON_parse_body demo_JSON_parse_value demo_request "1"
    (ns_response [[x7b]; list_byte_of_string (slice 1 payload_no_choices)])
  = handleNonStreaming demo_JSON_parse_body demo_JSON_parse_value demo_request "1"
      (ns_response [list_byte_of_string payload_no_choices]).
Proof.
  apply non_streaming_ascii_chunking.
  - repeat constructor.
  - repeat constructor.
  - reflexivity.
Defined.


(** ** Streaming: after the finish reason *)

(** X11: once a complete line with a finish reason has been handled, the
    response is over: further chunks, whatever they hold, add no frame, and
    the client receives the same sequence however the backend stream goes
    on and closes. *)
Theorem nothing_after_finish
    (JSON_parse : string -> option StreamChunk)
    (anthropicReq : AnthropicRequest) (now : string)
    (chunks more : list Buffer) (closing closing' : Closing) :
  finish_received JSON_parse (response chunks closing) = true ->
  res (handleStreaming JSON_parse anthropicReq now (response (chunks ++ more) closing'))
  = res (handleStreaming JSON_parse anthropicReq now (response chunks closing)).
Proof.
  intros Hfin.
  pose proof (closed_by_finish JSON_parse anthropicReq now chunks) as Hclosed.
  change (finish_received JSON_parse (response chunks stream_end))
    with (finish_received JSON_parse (response chunks closing)) in Hclosed.
  rewrite Hfin in Hclosed.
  cbn [handleStreaming]. rewrite fold_left_app.
  set (s := fold_left (on_data JSON_parse) chunks (initial anthropicReq now)) in *.
  destruct (closed_absorbs s _ Hclosed (on_data_steps JSON_parse more s)) as [Hc Hout].
  set (s' := fold_left (on_data JSON_parse) more s) in *.
  assert (Hclose : forall x c, closed x = true -> res (on_close x c) = res x).
  { intros x c Hx. apply res_eq; [apply out_on_close|].
    rewrite Hx. destruct c; cbn [on_close]; rewrite closed_settle; [|reflexivity].
    unfold closed in *. now rewrite Hx. }
  rewrite !Hclose by assumption. apply res_eq; congruence.
Qed.

Lemma nothing_after_finish_witness :
  res (handleStreaming demo_JSON_parse demo_request "1"
         (response ([data_line (payload_finish "stop")] ++ [data_line (content_payload "Hel")])
            stream_error))
  = res (handleStreaming demo_JSON_parse demo_request "1"
           (response [data_line (payload_finish "stop")] stream_end)).
Proof. apply nothing_after_finish. vm_compute. reflexivity. Defined.

(** ** Streaming: how the promise settles *)

Lemma promise_transition t s :
  promise (apply_transition t s)
  = if finishes t
    then match promise s with pending => resolved | p => p end
    else promise s.
Proof.
  destruct t; cbn [apply_transition finishes].
  - rewrite handle_text_eq. cbn. apply promise_write_all.
  - rewrite close_text_for_tools_eq. destruct (_ && _); [|reflexivity].
    cbn. apply promise_write_all.
  - rewrite handle_tool_call_eq. cbn. apply promise_write_all.
  - reflexivity.
  - rewrite handle_finish_eq. unfold settle. cbn [promise end_response with_res].
    rewrite promise_write_all.
    destruct (promise s) eqn:Hp; cbn [promise with_promise end_response with_res];
      rewrite ?promise_write_all, ?Hp; reflexivity.
  - reflexivity.
Qed.

Lemma reachable_promise anthropicReq now s :
  reachable anthropicReq now s ->
  promise s = if closed s then resolved else pending.
Proof.
  unfold reachable. intros H.
  apply (rtc_ind_r (R := step)
           (fun s0 => promise s0 = if closed s0 then resolved else pending)
           (initial anthropicReq now)); [reflexivity | | exact H].
  intros y z _ Hstep IH. apply step_transition in Hstep as [t ->].
  rewrite promise_transition, closed_transition, IH.
  destruct (closed y), (finishes t); reflexivity.
Qed.

(** X12: how the promise of [handleStreaming] settles. It is rejected when
    the backend request fails; it is resolved when the backend stream ends,
    with or without a finish reason; and when the backend stream errors it
    is resolved if a finish reason had been handled before and rejected
    otherwise. *)
Theorem streaming_promise
    (JSON_parse : string -> option StreamChunk)
    (anthropicReq : AnthropicRequest) (now : string) (backend : Backend) :
  promise (handleStreaming JSON_parse anthropicReq now backend)
  = match backend with
    | request_error => rejected
    | response _ stream_end => resolved
    | response _ stream_error =>
        if finish_received JSON_parse backend then resolved else rejected
    end.
Proof.
  destruct backend as [|chunks closing]; [reflexivity|].
  cbn [handleStreaming].
  pose proof (reachable_promise _ _ _ (data_reachable JSON_parse anthropicReq now chunks))
    as Hp.
  pose proof (closed_by_finish JSON_parse anthropicReq now chunks) as Hc.
  change (finish_received JSON_parse (response chunks stream_end))
    with (finish_received JSON_parse (response chunks closing)) in Hc.
  set (s := fold_left (on_data JSON_parse) chunks (initial anthropicReq now)) in *.
  rewrite Hc in Hp.
  destruct closing; cbn [on_close]; unfold settle.
  - fold (closed s). rewrite Hc.
    destruct (finish_received JSON_parse (response chunks stream_end)) eqn:Hf.
    + now rewrite Hp.
    + cbn [promise end_response with_res]. now rewrite Hp.
  - cbn [promise end_response with_res]. rewrite Hp.
    now destruct (finish_received JSON_parse (response chunks stream_error)).
Qed.

(** ** Streaming: an event with a finish reason *)

(** X13: an event whose first choice has a finish reason is handled by the
    finish branch alone: its own text, tool calls and usage are not looked
    at, the [data] callback returns, and while the response is open the
    frames added are the stop of the text block if one is open, the tool
    stops, [message_delta] with the stop reason (tool_use exactly for
    "tool_calls") and the output-token counter as it was before the event,
    and [message_stop]. *)
Theorem finish_event (s : StreamState) (data : StreamChunk)
    (choice : StreamChoice) (rest : list StreamChoice) (reason : string) :
  nullish (ch_choices data) [] = choice :: rest ->
  sc_finish_reason choice = Some reason ->
  reason <> "" ->
  closed s = false ->
  let s' := (handle_event s data).1 in
  (handle_event s data).2 = true /\
  out s'
  = out s
    ++ (if textBlockStarted s
        then [ {| event := "content_block_stop";
                  data := content_block_stop (currentBlockIndex s) |} ]
        else [])
    ++ tool_stops s
    ++ [ sseEvent "message_delta"
           (message_delta (if String.eqb reason "tool_calls" then tool_use else end_turn)
              (outputTokens s));
         sseEvent "message_stop" message_stop ] /\
  closed s' = true /\
  inputTokens s' = inputTokens s /\ outputTokens s' = outputTokens s /\
  toolCalls s' = toolCalls s.
Proof.
  intros Hchoice Hreason Hne Hopen s'. subst s'.
  unfold handle_event. rewrite Hchoice, Hreason.
  destruct reason as [|a r]; [contradiction|]. cbn [truthy_str or_str fst snd].
  destruct (finish_branch s (String a r) Hopen) as (Hout & Hc & _).
  destruct (handle_finish_fields s (String a r)) as (Hm & _ & _ & _ & Hi & Ho & _).
  repeat split; assumption.
Qed.

Lemma finish_event_witness :
  out (handle_event (handle_text (initial demo_request "1") "Hel")
         {| ch_choices :=
              Some [ {| sc_delta := Some {| d_content := Some "lo"; d_tool_calls := None |};
                        sc_finish_reason := Some "stop" |} ];
            ch_usage := Some {| prompt_tokens := Some 3; completion_tokens := Some 9 |} |}).1
  = [ message_start_frame "msg_1" "claude-sonnet-x";
      sseEvent "content_block_start" (content_block_start 0 (text_block ""));
      sseEvent "content_block_delta" (content_block_delta 0 (text_delta "Hel"));
      stop_frame 0;
      sseEvent "message_delta" (message_delta end_turn 1);
      message_stop_frame ].
Proof.
  destruct (finish_event (handle_text (initial demo_request "1") "Hel")
              {| ch_choices :=
                   Some [ {| sc_delta := Some {| d_content := Some "lo"; d_tool_calls := None |};
                             sc_finish_reason := Some "stop" |} ];
                 ch_usage := Some {| prompt_tokens := Some 3; completion_tokens := Some 9 |} |}
              _ [] "stop" eq_refl eq_refl) as (_ & Hout & _).
  - discriminate.
  - reflexivity.
  - rewrite Hout. reflexivity.
Defined.

(** ** Streaming: chunk boundaries between characters *)

Lemma res_on_close s closing : res (on_close s closing) = res_end (res s).
Proof.
  destruct closing; cbn [on_close];
    match goal with |- res (settle ?p ?x) = _ => destruct (settle_fields p x) as (-> & _) end.
  - destruct (writableEnded (res s)) eqn:E; [|reflexivity].
    destruct (res s) as [o e]; cbn in E. now subst e.
  - reflexivity.
Qed.

(** X9: the streaming response depends on the backend chunks only through
    the concatenation of their decoded texts: two deliveries whose chunks
    decode to the same text overall give the client the same frames. *)
Theorem streaming_text_chunking
    (JSON_parse : string -> option StreamChunk)
    (anthropicReq : AnthropicRequest) (now : string)
    (chunks1 chunks2 : list Buffer) (closing1 closing2 : Closing) :
  text_of (map Buffer_toString chunks1) = text_of (map Buffer_toString chunks2) ->
  res (handleStreaming JSON_parse anthropicReq now (response chunks1 closing1))
  = res (handleStreaming JSON_parse anthropicReq now (response chunks2 closing2)).
Proof.
  intros Heq. cbn [handleStreaming]. rewrite !res_on_close, !on_data_on_text.
  f_equal. now apply text_chunking.
Qed.

Lemma streaming_text_chunking_witness :
  res (handleStreaming demo_JSON_parse demo_request "1"
         (response [list_byte_of_string "data: "; 
                    list_byte_of_string (content_payload e_acute +:+ String "010" "")]
            stream_end))
  = res (handleStreaming demo_JSON_parse demo_request "1"
           (response [data_line (content_payload e_acute)] stream_end)).
Proof. apply streaming_text_chunking. vm_compute. reflexivity. Defined.

(** X19: in particular, when the backend sends ASCII bytes only, the frames
    depend on the bytes alone, not on how they are cut into chunks. *)
Theorem streaming_ascii_chunking
    (JSON_parse : string -> option StreamChunk)
    (anthropicReq : AnthropicRequest) (now : string)
    (chunks1 chunks2 : list Buffer) (closing1 closing2 : Closing) :
  Forall ascii_only chunks1 -> Forall ascii_only chunks2 ->
  concat chunks1 = concat chunks2 ->
  res (handleStreaming JSON_parse anthropicReq now (response chunks1 closing1))
  = res (handleStreaming JSON_parse anthropicReq now (response chunks2 closing2)).
Proof.
  intros H1 H2 Heq. cbn [handleStreaming]. rewrite !res_on_close.
  f_equal. now apply ascii_chunking.
Qed.

Lemma streaming_ascii_chunking_witness :
  res (handleStreaming demo_JSON_parse demo_request "1"
         (response [ [x64; x61]; [x74; x61; x3a; x20; x5b; x44; x4f]; [x4e; x45; x5d; x0a] ]
            stream_end))
  = res (handleStreaming demo_JSON_parse demo_request "1"
           (response [ [x64; x61; x74; x61; x3a; x20; x5b; x44; x4f; x4e; x45; x5d; x0a] ]
              stream_end)).
Proof.
  apply streaming_ascii_chunking.
  - repeat constructor.
  - repeat constructor.
  - reflexivity.
Defined.

(** ** Streaming: the tool stops of the finish branch *)




(** A tool block at index 0, then text, which the handler also puts at
    index 0, then a finish reason: the stop delivered at index 0 is the one
    of the text block. *)
Example text_after_tool_block :
  out (handleStreaming demo_JSON_parse_tools demo_request "1"
         (response [data_line payload_named; data_line (content_payload "Hel");
                    data_line (payload_finish "tool_calls")] stream_end))
  = [ {| event := "message_start";
         data := message_start "msg_1" "claude-sonnet-x" 0 0 |};
      {| event := "content_block_start";
         data := content_block_start 0 (tool_use_block "call_1" "get_weather" (JObject [])) |};
      {| event := "content_block_start";
         data := content_block_start 0 (text_block "") |};
      {| event := "content_block_delta";
         data := content_block_delta 0 (text_delta "Hel") |};
      {| event := "content_block_stop"; data := content_block_stop 0 |};
      {| event := "message_delta"; data := message_delta tool_use 1 |};
      {| event := "message_stop"; data := message_stop |} ].
Proof. vm_compute. reflexivity. Qed.

(** ** Streaming: the order of block frames *)

Lemma cursor_text_transition t s :
  (currentBlockIndex (apply_transition t s), textBlockStarted (apply_transition t s))
  = match t with
    | t_text _ => (currentBlockIndex s, true)
    | t_close_text =>
        if textBlockStarted s && Nat.eqb (size (toolBlocksStarted s)) 0
        then ((currentBlockIndex s + 1)%Z, false)
        else (currentBlockIndex s, textBlockStarted s)
    | _ => (currentBlockIndex s, textBlockStarted s)
    end.
Proof.
  destruct t; cbn [apply_transition].
  - rewrite handle_text_eq. reflexivity.
  - rewrite close_text_for_tools_eq. now destruct (_ && _).
  - now destruct (handle_tool_call_fields s tc) as (_ & -> & -> & _).
  - reflexivity.
  - now destruct (handle_finish_fields s reason) as (_ & _ & -> & -> & _).
  - reflexivity.
Qed.

Lemma writes_stop t s f k :
  In f (writes t s) -> stop_at f k ->
  (t = t_close_text /\ k = currentBlockIndex s /\
   textBlockStarted s && Nat.eqb (size (toolBlocksStarted s)) 0 = true) \/
  (exists reason, t = t_finish reason).
Proof.
  unfold stop_at. destruct t; cbn [writes]; intros Hin Hf.
  - unfold text_frames in Hin. apply in_app_or in Hin as [Hin|[<-|[]]]; [|discriminate].
    destruct (textBlockStarted s); [destruct Hin|]. destruct Hin as [<-|[]]. discriminate.
  - destruct (textBlockStarted s && _) eqn:Hc; [|destruct Hin].
    destruct Hin as [<-|[]]. injection Hf as <-. left. auto.
  - unfold tool_frames in Hin. apply in_app_or in Hin as [Hin|Hin].
    + destruct (starts_block s tc); [|destruct Hin]. destruct Hin as [<-|[]]. discriminate.
    + destruct (_ && _); [|destruct Hin]. destruct Hin as [<-|[]]. discriminate.
  - destruct Hin.
  - right. eauto.
  - destruct Hin.
Qed.

(** A block started by a transition is at the cursor or, for a tool call,
    at the cursor plus the upstream index. *)
Lemma writes_start t s g i :
  In g (writes t s) -> start_at g i ->
  (i = currentBlockIndex s /\ exists content, t = t_text content) \/
  (exists tc, t = t_tool_call tc /\ i = (currentBlockIndex s + tcIndex_of tc)%Z).
Proof.
  unfold start_at. destruct t; cbn [writes]; intros Hin [blk Hg].
  - left. split; [|eauto].
    unfold text_frames in Hin. apply in_app_or in Hin as [Hin|[<-|[]]]; [|discriminate].
    destruct (textBlockStarted s); [destruct Hin|]. destruct Hin as [<-|[]].
    now injection Hg as <- _.
  - destruct (textBlockStarted s && _); [|destruct Hin].
    destruct Hin as [<-|[]]. discriminate.
  - right. exists tc. split; [reflexivity|].
    unfold tool_frames in Hin. apply in_app_or in Hin as [Hin|Hin].
    + destruct (starts_block s tc); [|destruct Hin]. destruct Hin as [<-|[]].
      now injection Hg as <- _.
    + destruct (_ && _); [|destruct Hin]. destruct Hin as [<-|[]]. discriminate.
  - destruct Hin.
  - apply in_app_or in Hin as [Hin|[<-|[<-|[]]]]; try discriminate.
    apply in_finish_stops in Hin as [k ->]. discriminate.
  - destruct Hin.
Qed.

Lemma never_reopened_app frames added :
  never_reopened frames ->
  (forall g i, In g added -> start_at g i ->
               forall f k, In f frames -> stop_at f k -> (k < i)%Z) ->
  never_reopened added ->
  never_reopened (frames ++ added).
Proof.
  intros Hframes Hcross Hadded pre f post g k i Heq Hf Hg Hgi.
  apply app_eq_app in Heq as [l [[-> Hl] | [-> Hl]]].
  - destruct l as [|f' l]; cbn in Hl.
    + subst added. eapply (Hadded [] f post); eauto.
    + injection Hl as <- ->. apply in_app_or in Hg as [Hg|Hg].
      * eapply Hframes; eauto.
      * eapply Hcross; eauto. apply in_elt.
  - eapply Hadded; eauto.
Qed.

Lemma text_follow_app frames added :
  text_deltas_follow_starts frames ->
  (forall w1 f w2 index, added = w1 ++ f :: w2 -> text_delta_at f index ->
                         text_started_in (frames ++ w1) index) ->
  text_deltas_follow_starts (frames ++ added).
Proof.
  intros Hframes Hadded pre f post index Heq Hf.
  apply app_eq_app in Heq as [l [[-> Hl] | [-> Hl]]].
  - destruct l as [|g l]; cbn in Hl.
    + specialize (Hadded [] f post index (eq_sym Hl) Hf).
      now rewrite !app_nil_r in Hadded.
    + injection Hl as <- ->. eapply Hframes; [reflexivity | exact Hf].
  - eapply Hadded; [exact Hl | exact Hf].
Qed.

Lemma text_started_in_app frames more index :
  text_started_in frames index -> text_started_in (frames ++ more) index.
Proof.
  intros (f & text & Hin & Hf). exists f, text.
  split; [apply in_or_app; now left | exact Hf].
Qed.

Lemma writes_text_delta t s w1 f w2 index :
  text_ok s -> closed s = false ->
  writes t s = w1 ++ f :: w2 -> text_delta_at f index ->
  text_started_in (out s ++ w1) index.
Proof.
  intros (_ & Hstarted) Hopen Heq [text Hf].
  destruct t; cbn [writes] in Heq.
  - unfold text_frames in Heq. destruct (textBlockStarted s) eqn:Ht; cbn [app] in Heq.
    + destruct w1 as [|g w1]; cbn in Heq.
      * injection Heq as <- _. injection Hf as <- _.
        rewrite app_nil_r. now apply Hstarted.
      * injection Heq as _ Heq. now destruct w1.
    + destruct w1 as [|g w1]; cbn in Heq.
      * injection Heq as <- _. discriminate.
      * injection Heq as <- Heq. destruct w1 as [|g' w1]; cbn in Heq.
        -- injection Heq as <- _. injection Hf as <- _.
           eexists _, "". split; [apply in_or_app; right; now left | reflexivity].
        -- injection Heq as _ Heq. now destruct w1.
  - exfalso. destruct (_ && _); [|now destruct w1].
    destruct w1 as [|g w1]; cbn in Heq.
    + injection Heq as <- _. discriminate.
    + injection Heq as _ Heq. now destruct w1.
  - exfalso. assert (Hin : In f (tool_frames s tc)) by (rewrite Heq; apply in_elt).
    unfold tool_frames in Hin. apply in_app_or in Hin as [Hin|Hin].
    + destruct (starts_block s tc); [|destruct Hin]. destruct Hin as [<-|[]]. discriminate.
    + destruct (_ && _); [|destruct Hin]. destruct Hin as [<-|[]]. discriminate.
  - now destruct w1.
  - exfalso. assert (Hin : In f (finish_stops s ++
      [message_delta_frame reason (outputTokens s); message_stop_frame]))
      by (rewrite Heq; apply in_elt).
    apply in_app_or in Hin as [Hin|[<-|[<-|[]]]]; try discriminate.
    apply in_finish_stops in Hin as [k ->]. discriminate.
  - now destruct w1.
Qed.

Lemma cursor_transition t s :
  currentBlockIndex (apply_transition t s)
  = match t with
    | t_close_text =>
        if textBlockStarted s && Nat.eqb (size (toolBlocksStarted s)) 0
        then (currentBlockIndex s + 1)%Z else currentBlockIndex s
    | _ => currentBlockIndex s
    end.
Proof.
  pose proof (f_equal fst (cursor_text_transition t s)) as H. cbn [fst] in H.
  rewrite H. destruct t; try reflexivity. now destruct (_ && _).
Qed.

Lemma text_flag_transition t s :
  textBlockStarted (apply_transition t s)
  = match t with
    | t_text _ => true
    | t_close_text =>
        if textBlockStarted s && Nat.eqb (size (toolBlocksStarted s)) 0
        then false else textBlockStarted s
    | _ => textBlockStarted s
    end.
Proof.
  pose proof (f_equal snd (cursor_text_transition t s)) as H. cbn [snd] in H.
  rewrite H. destruct t; try reflexivity. now destruct (_ && _).
Qed.

Lemma text_ok_transition t s : text_ok s -> text_ok (apply_transition t s).
Proof.
  intros Hok. pose proof Hok as (Htext & Hstarted).
  unfold text_ok.
  rewrite out_transition, closed_transition, cursor_transition, text_flag_transition.
  destruct (closed s) eqn:Hopen; cbn [orb].
  { split; [assumption | discriminate]. }
  specialize (Hstarted eq_refl).
  split.
  - apply text_follow_app; [assumption|]. intros w1 f w2 index.
    now apply writes_text_delta.
  - intros Hfin Ht. destruct t; try discriminate.
    + cbn [writes]. unfold text_frames.
      destruct (textBlockStarted s) eqn:Hts.
      * apply text_started_in_app. now apply Hstarted.
      * eexists _, "". split; [apply in_or_app; right; now left | reflexivity].
    + destruct (textBlockStarted s && _) eqn:Hc; [discriminate|].
      apply text_started_in_app. now apply Hstarted.
    + apply text_started_in_app. now apply Hstarted.
    + apply text_started_in_app. now apply Hstarted.
    + apply text_started_in_app. now apply Hstarted.
Qed.

Lemma text_ok_initial anthropicReq now : text_ok (initial anthropicReq now).
Proof.
  split.
  - intros pre f post index Heq [text Hf]. destruct pre as [|x pre]; cbn in Heq.
    + injection Heq as <- _. discriminate.
    + injection Heq as _ Heq. now destruct pre.
  - discriminate.
Qed.

Lemma reachable_text_ok anthropicReq now s : reachable anthropicReq now s -> text_ok s.
Proof.
  unfold reachable. intros H.
  apply (rtc_ind_r (R := step) text_ok (initial anthropicReq now));
    [apply text_ok_initial | | exact H].
  intros y z _ Hstep IH. apply step_transition in Hstep as [t ->].
  now apply text_ok_transition.
Qed.

(** X16: in the frames of a streaming response, every [text_delta] comes
    after the [content_block_start] of a text block at the same index. *)
Theorem text_deltas_after_start
    (JSON_parse : string -> option StreamChunk)
    (anthropicReq : AnthropicRequest) (now : string) (backend : Backend) :
  text_deltas_follow_starts (out (handleStreaming JSON_parse anthropicReq now backend)).
Proof.
  destruct (handleStreaming_out JSON_parse anthropicReq now backend) as (s & Hs & ->).
  now destruct (reachable_text_ok _ _ _ Hs) as (H & _).
Qed.

(** ** Streaming: stopped blocks, for a backend that counts from zero *)

Lemma stops_ok_transition s s' : stops_ok s -> from_zero s s' -> stops_ok s'.
Proof.
  intros Hok (t & Hzero & ->). pose proof Hok as (Hnever & Hstops).
  unfold stops_ok.
  rewrite out_transition, closed_transition, cursor_transition.
  destruct (closed s) eqn:Hopen; cbn [orb].
  { split; [assumption | discriminate]. }
  specialize (Hstops eq_refl).
  split.
  - apply never_reopened_app; [assumption | |].
    + intros g i Hg Hgi f k Hf Hfk.
      specialize (Hstops f k Hf Hfk).
      destruct (writes_start t s g i Hg Hgi) as [[-> _]|(tc & -> & ->)]; [assumption|].
      specialize (Hzero tc eq_refl). lia.
    + intros pre f post g k i Heq Hf Hg Hgi.
      assert (Hinf : In f (writes t s)) by (rewrite Heq; apply in_elt).
      assert (Hing : In g (writes t s))
        by (rewrite Heq; apply in_or_app; right; now right).
      destruct (writes_stop t s f k Hinf Hf) as [(-> & _)|[r ->]];
        destruct (writes_start _ s g i Hing Hgi) as [[_ [c Hc]]|(tc & Hc & _)];
        discriminate.
  - intros Hfin f k Hf Hfk.
    assert (Hk : (k < currentBlockIndex s)%Z \/
                 (t = t_close_text /\ k = currentBlockIndex s /\
                  textBlockStarted s && Nat.eqb (size (toolBlocksStarted s)) 0 = true)).
    { apply in_app_or in Hf as [Hf|Hf]; [left; eapply Hstops; eauto|].
      destruct (writes_stop t s f k Hf Hfk) as [H|[r ->]]; [now right | discriminate]. }
    destruct Hk as [Hk|(-> & -> & Hc)].
    + destruct t; try assumption. destruct (_ && _); lia.
    + rewrite Hc. lia.
Qed.

Lemma stops_ok_initial anthropicReq now : stops_ok (initial anthropicReq now).
Proof.
  split.
  - intros pre f post g k i Heq Hf. destruct pre as [|x pre]; cbn in Heq.
    + injection Heq as <- _. discriminate.
    + injection Heq as _ Heq. now destruct pre.
  - intros _ f k [<-|[]] Hf. discriminate.
Qed.

Lemma from_zero_tool_calls tool_calls s :
  Forall (fun tc => (0 <= tcIndex_of tc)%Z) tool_calls ->
  rtc from_zero s (fold_left handle_tool_call tool_calls s).
Proof.
  intros H. revert s. induction H as [|tc rest Htc _ IH]; intros s; cbn; [constructor|].
  eapply rtc_l; [|apply IH]. exists (t_tool_call tc). split; [|reflexivity].
  now intros tc' [= <-].
Qed.

Lemma from_zero_event s data :
  Forall (fun tc => (0 <= tcIndex_of tc)%Z) (fragments_of data) ->
  rtc from_zero s (handle_event s data).1.
Proof.
  unfold fragments_of, handle_event.
  destruct (nullish (ch_choices data) []) as [|choice ?]; [constructor|].
  intros Hzero.
  destruct (truthy_str (sc_finish_reason choice)); cbn [fst].
  { apply rtc_once. eexists (t_finish _). split; [discriminate | reflexivity]. }
  set (s1 := if truthy_str _ then _ else s).
  assert (H1 : rtc from_zero s s1).
  { subst s1. destruct (truthy_str _); [|constructor].
    apply rtc_once. eexists (t_text _). split; [discriminate | reflexivity]. }
  set (s2 := match d_tool_calls _ with Some _ => _ | None => s1 end).
  assert (H2 : rtc from_zero s1 s2).
  { subst s2. destruct (d_tool_calls _) as [tool_calls|]; [|constructor].
    unfold handle_tool_calls.
    eapply rtc_l; [|apply from_zero_tool_calls, Hzero].
    exists t_close_text. split; [discriminate | reflexivity]. }
  etrans; [exact H1|]. etrans; [exact H2|].
  destruct (ch_usage data); [|constructor].
  apply rtc_once. eexists (t_usage _). split; [discriminate | reflexivity].
Qed.

Section FromZero.

Variable JSON_parse : string -> option StreamChunk.
Hypothesis zero_based : indices_from_zero JSON_parse.

Lemma from_zero_line s line : rtc from_zero s (handle_line JSON_parse s line).1.
Proof.
  unfold handle_line.
  destruct (negb _); [constructor|].
  destruct (String.eqb _ _); [constructor|].
  destruct (JSON_parse _) as [data|] eqn:Hp; [|constructor].
  apply from_zero_event. eapply zero_based, Hp.
Qed.

Lemma from_zero_lines lines s : rtc from_zero s (handle_lines JSON_parse s lines).
Proof.
  revert s; induction lines as [|line rest IH]; intros s; cbn; [constructor|].
  pose proof (from_zero_line s line) as H.
  destruct (handle_line JSON_parse s line) as [s' returned]; cbn in H.
  destruct returned; [exact H | etrans; [exact H | apply IH]].
Qed.

Lemma from_zero_data chunks s : rtc from_zero s (fold_left (on_data JSON_parse) chunks s).
Proof.
  revert s; induction chunks as [|chunk rest IH]; intros s; cbn; [constructor|].
  etrans; [|apply IH]. unfold on_data, on_text.
  eapply rtc_l; [|apply from_zero_lines].
  eexists (t_buffer _). split; [discriminate | reflexivity].
Qed.

End FromZero.

(** What a table parser returns is one of the values of its table. *)
Lemma parse_table_value {A} (table : list (string * A)) (payload : string) (a : A) :
  parse_table table payload = Some a -> In a (map snd table).
Proof.
  unfold parse_table. induction table as [|[key v] table IH]; cbn; [discriminate|].
  destruct (String.eqb key payload); cbn.
  - intros [= <-]. now left.
  - intros H. right. now apply IH.
Qed.

(** X15: when the tool-call indices of the backend are never negative,
    then in the frames of a streaming response, once a block has been
    stopped no block is started at its index or at a lower one. *)
Theorem stopped_block_never_restarted
    (JSON_parse : string -> option StreamChunk)
    (anthropicReq : AnthropicRequest) (now : string) (backend : Backend) :
  indices_from_zero JSON_parse ->
  never_reopened (out (handleStreaming JSON_parse anthropicReq now backend)).
Proof.
  intros Hzero.
  assert (Hrun : forall s, rtc from_zero (initial anthropicReq now) s -> stops_ok s).
  { intros s H.
    apply (rtc_ind_r (R := from_zero) stops_ok (initial anthropicReq now));
      [apply stops_ok_initial | | exact H].
    intros y z _ Hstep IH. eapply stops_ok_transition; eassumption. }
  destruct backend as [|chunks closing]; cbn [handleStreaming].
  - rewrite out_settle. apply (stops_ok_initial anthropicReq now).
  - rewrite out_on_close. apply Hrun, from_zero_data, Hzero.
Qed.

Lemma stopped_block_never_restarted_witness :
  never_reopened
    (out (handleStreaming demo_JSON_parse demo_request "1"
            (response [data_line (content_payload "Hel"); data_line payload_named;
                       data_line payload_second; data_line (payload_finish "tool_calls")]
               stream_end))).
Proof.
  apply stopped_block_never_restarted.
  intros payload data H. apply parse_table_value in H. cbn [map snd] in H.
  repeat (destruct H as [<-|H]; [cbv; repeat constructor; discriminate|]).
  destruct H.
Defined.

(** With the index -1 the property fails: the text block is stopped at
    index 0, the cursor moves to 1, and the tool block is started at
    1 + (-1) = 0. *)
Example negative_index_restarts_block :
  out (handleStreaming demo_JSON_parse_tools demo_request "1"
         (response [data_line (content_payload "Hel"); data_line payload_minus] stream_end))
  = [ {| event := "message_start";
         data := message_start "msg_1" "claude-sonnet-x" 0 0 |};
      {| event := "content_block_start";
         data := content_block_start 0 (text_block "") |};
      {| event := "content_block_delta";
         data := content_block_delta 0 (text_delta "Hel") |};
      {| event := "content_block_stop"; data := content_block_stop 0 |};
      {| event := "content_block_start";
         data := content_block_start 0 (tool_use_block "call_0" "get_time" (JObject [])) |} ].
Proof. vm_compute. reflexivity. Qed.

(** ** Streaming: a last line without line feed *)

Lemma split_nl_whole_app (a b : string) :
  split_nl a = [a] -> split_nl b = [b] -> split_nl (a +:+ b) = [a +:+ b].
Proof.
  intros Ha Hb. induction a as [|c a IH]; [exact Hb|].
  change (String c a +:+ b) with (String c (a +:+ b)).
  rewrite split_nl_cons in Ha |- *.
  destruct (Ascii.eqb c "010"); [discriminate|].
  destruct (split_nl a) as [|p ps] eqn:Hs; [now destruct (split_nl_nonempty a)|].
  injection Ha as -> ->. now rewrite IH.
Qed.

Lemma text_of_app (texts more : list string) :
  text_of (texts ++ more) = text_of texts +:+ text_of more.
Proof.
  induction texts as [|t texts IH]; [reflexivity|].
  cbn [app text_of fold_right]. fold (text_of (texts ++ more)) (text_of texts).
  now rewrite IH, append_assoc.
Qed.

(** X20: text after the last line feed is never handled. A final chunk
    whose decoded text has no line feed changes nothing in what the client
    receives, whatever it holds: a last line that the backend does not
    terminate is lost, finish reason included. *)
Theorem unterminated_line_not_handled
    (JSON_parse : string -> option StreamChunk)
    (anthropicReq : AnthropicRequest) (now : string)
    (chunks : list Buffer) (tail : Buffer) (closing : Closing) :
  split_nl (Buffer_toString tail) = [Buffer_toString tail] ->
  res (handleStreaming JSON_parse anthropicReq now (response (chunks ++ [tail]) closing))
  = res (handleStreaming JSON_parse anthropicReq now (response chunks closing)).
Proof.
  intros Htail. cbn [handleStreaming]. rewrite !res_on_close, !on_data_on_text.
  f_equal.
  destruct (chunks_whole JSON_parse (map Buffer_toString (chunks ++ [tail]))
              (initial anthropicReq now) eq_refl) as (-> & _).
  destruct (chunks_whole JSON_parse (map Buffer_toString chunks)
              (initial anthropicReq now) eq_refl) as (-> & _).
  unfold on_whole_text. cbn [res with_buffer].
  change (buffer (initial anthropicReq now)) with "".
  change ("" +:+ ?x) with x.
  rewrite List.map_app, text_of_app. cbn [map text_of fold_right].
  rewrite append_nil_r, lines_of_app.
  assert (Hnone : lines_of (rest_of (text_of (map Buffer_toString chunks))
                            +:+ Buffer_toString tail) = []).
  { unfold lines_of. rewrite split_nl_whole_app; [reflexivity | apply split_nl_rest | assumption]. }
  now rewrite Hnone, app_nil_r.
Qed.

Lemma unterminated_line_not_handled_witness :
  res (handleStreaming demo_JSON_parse demo_request "1"
         (response ([data_line (content_payload "Hel")]
                    ++ [list_byte_of_string ("data: " +:+ payload_finish "stop")])
            stream_end))
  = res (handleStreaming demo_JSON_parse demo_request "1"
           (response [data_line (content_payload "Hel")] stream_end)).
Proof. apply unterminated_line_not_handled. vm_compute. reflexivity. Defined.

(** ** Streaming: the token count without usage reports *)

Lemma text_deltas_app frames more :
  text_deltas (frames ++ more) = text_deltas frames + text_deltas more.
Proof. unfold text_deltas. now rewrite List.filter_app, length_app. Qed.

Lemma counts_deltas_app count frames more :
  counts_deltas count (frames ++ more)
  = counts_deltas count frames && counts_deltas (count + text_deltas frames) more.
Proof.
  revert count; induction frames as [|f frames IH]; intros count.
  - cbn. now rewrite Nat.add_0_r.
  - cbn [app counts_deltas]. unfold text_deltas. cbn [List.filter]. unfold is_text_delta at 1.
    destruct (data f) as [| | k [text|pj] | | sr n |]; cbn [length];
      rewrite IH; unfold text_deltas; rewrite ?andb_assoc; try reflexivity.
    now rewrite Nat.add_succ_comm.
Qed.

Lemma counts_deltas_blocks count frames :
  Forall block_frame frames -> counts_deltas count frames = true.
Proof.
  intros H. revert count. induction H as [|f frames Hf _ IH]; intros count; [reflexivity|].
  cbn [counts_deltas]. unfold block_frame in Hf.
  destruct (data f) as [| | k [text|pj] | | sr n |]; try contradiction; apply IH.
Qed.

Lemma counts_deltas_split count pre f post sr n :
  counts_deltas count (pre ++ f :: post) = true ->
  data f = message_delta sr n ->
  n = count + text_deltas pre.
Proof.
  rewrite counts_deltas_app. intros H Hf. apply andb_true_iff in H as [_ H].
  cbn [counts_deltas] in H. rewrite Hf in H.
  apply andb_true_iff in H as [H _]. now apply Nat.eqb_eq in H.
Qed.

Lemma text_deltas_none frames :
  Forall (fun f => is_text_delta f = false) frames -> text_deltas frames = 0.
Proof.
  unfold text_deltas. induction 1 as [|f frames Hf _ IH]; [reflexivity|].
  cbn [List.filter]. now rewrite Hf.
Qed.

Lemma text_deltas_stops s : text_deltas (finish_stops s) = 0.
Proof.
  apply text_deltas_none, List.Forall_forall. intros f Hf.
  now apply in_finish_stops in Hf as [k ->].
Qed.

Lemma text_deltas_writes t s :
  finishes t = false ->
  text_deltas (writes t s) = match t with t_text _ => 1 | _ => 0 end.
Proof.
  intros Hfin. destruct t; try discriminate; cbn [writes].
  - unfold text_frames. now destruct (textBlockStarted s).
  - now destruct (_ && _).
  - unfold tool_frames. destruct (starts_block s tc); now destruct (_ && _).
  - reflexivity.
  - reflexivity.
Qed.

Lemma outputTokens_transition t s :
  (forall usage, t <> t_usage usage) ->
  outputTokens (apply_transition t s)
  = match t with t_text _ => S (outputTokens s) | _ => outputTokens s end.
Proof.
  intros Hfree. destruct t; cbn [apply_transition].
  - apply tokens_text.
  - rewrite close_text_for_tools_eq. destruct (_ && _); [|reflexivity].
    cbn. apply tokens_write_all.
  - apply tokens_tool_call.
  - now destruct (Hfree usage).
  - now destruct (handle_finish_fields s reason) as (_ & _ & _ & _ & _ & -> & _).
  - reflexivity.
Qed.

Lemma tokens_ok_transition s s' : tokens_ok s -> usage_free s s' -> tokens_ok s'.
Proof.
  intros [Hcount Htokens] (t & Hfree & ->). unfold tokens_ok.
  rewrite out_transition, closed_transition, (outputTokens_transition t s Hfree).
  destruct (closed s) eqn:Hopen; cbn [orb].
  { split; [assumption | discriminate]. }
  specialize (Htokens eq_refl). split.
  - rewrite counts_deltas_app, Hcount. cbn [andb Nat.add].
    destruct (finishes t) eqn:Hfin.
    + destruct t; try discriminate. cbn [writes].
      rewrite counts_deltas_app, (counts_deltas_blocks _ _ (finish_stops_blocks s)).
      rewrite text_deltas_stops, Nat.add_0_r. cbn. rewrite Htokens.
      now rewrite Nat.eqb_refl.
    + apply counts_deltas_blocks. now apply writes_blocks.
  - intros Hfin. rewrite text_deltas_app, (text_deltas_writes t s Hfin), <- Htokens.
    destruct t; lia.
Qed.

Lemma usage_free_tool_calls tool_calls s :
  rtc usage_free s (fold_left handle_tool_call tool_calls s).
Proof.
  revert s; induction tool_calls as [|tc rest IH]; intros s; cbn; [constructor|].
  eapply rtc_l; [|apply IH]. exists (t_tool_call tc). split; [discriminate | reflexivity].
Qed.

Lemma usage_free_event s data :
  ch_usage data = None -> rtc usage_free s (handle_event s data).1.
Proof.
  intros Husage. unfold handle_event. rewrite Husage.
  destruct (nullish (ch_choices data) []) as [|choice ?]; [constructor|].
  destruct (truthy_str (sc_finish_reason choice)); cbn [fst].
  { apply rtc_once. eexists (t_finish _). split; [discriminate | reflexivity]. }
  set (s1 := if truthy_str _ then _ else s).
  assert (H1 : rtc usage_free s s1).
  { subst s1. destruct (truthy_str _); [|constructor].
    apply rtc_once. eexists (t_text _). split; [discriminate | reflexivity]. }
  etrans; [exact H1|].
  destruct (d_tool_calls _); [|constructor].
  unfold handle_tool_calls.
  eapply rtc_l; [|apply usage_free_tool_calls].
  exists t_close_text. split; [discriminate | reflexivity].
Qed.

Section UsageFree.

Variable JSON_parse : string -> option StreamChunk.
Hypothesis no_usage : forall payload data, JSON_parse payload = Some data -> ch_usage data = None.

Lemma usage_free_line s line : rtc usage_free s (handle_line JSON_parse s line).1.
Proof.
  unfold handle_line.
  destruct (negb _); [constructor|].
  destruct (String.eqb _ _); [constructor|].
  destruct (JSON_parse _) as [data|] eqn:Hp; [|constructor].
  apply usage_free_event. eapply no_usage, Hp.
Qed.

Lemma usage_free_lines lines s : rtc usage_free s (handle_lines JSON_parse s lines).
Proof.
  revert s; induction lines as [|line rest IH]; intros s; cbn; [constructor|].
  pose proof (usage_free_line s line) as H.
  destruct (handle_line JSON_parse s line) as [s' returned]; cbn in H.
  destruct returned; [exact H | etrans; [exact H | apply IH]].
Qed.

Lemma usage_free_data chunks s : rtc usage_free s (fold_left (on_data JSON_parse) chunks s).
Proof.
  revert s; induction chunks as [|chunk rest IH]; intros s; cbn; [constructor|].
  etrans; [|apply IH]. unfold on_data, on_text.
  eapply rtc_l; [|apply usage_free_lines].
  eexists (t_buffer _). split; [discriminate | reflexivity].
Qed.

End UsageFree.

(** X21: when the backend never reports usage, the token count that
    [message_delta] announces is the number of [text_delta] frames the
    client has received before it. *)
Theorem tokens_count_text_deltas
    (JSON_parse : string -> option StreamChunk)
    (anthropicReq : AnthropicRequest) (now : string) (backend : Backend)
    (pre post : list Frame) (f : Frame) (reason : StopReason) (tokens : nat) :
  (forall payload data, JSON_parse payload = Some data -> ch_usage data = None) ->
  out (handleStreaming JSON_parse anthropicReq now backend) = pre ++ f :: post ->
  data f = message_delta reason tokens ->
  tokens = text_deltas pre.
Proof.
  intros Hfree Hout Hf.
  assert (Hok : tokens_ok (initial anthropicReq now)) by (split; reflexivity).
  assert (Hrun : forall s, rtc usage_free (initial anthropicReq now) s -> tokens_ok s).
  { intros s H.
    apply (rtc_ind_r (R := usage_free) tokens_ok (initial anthropicReq now));
      [assumption | | exact H].
    intros y z _ Hstep IH. eapply tokens_ok_transition; eassumption. }
  assert (Hcount : counts_deltas 0 (out (handleStreaming JSON_parse anthropicReq now backend))
                   = true).
  { destruct backend as [|chunks closing]; cbn [handleStreaming].
    - rewrite out_settle. reflexivity.
    - rewrite out_on_close. apply Hrun, usage_free_data, Hfree. }
  rewrite Hout in Hcount.
  exact (counts_deltas_split 0 pre f post reason tokens Hcount Hf).
Qed.

Lemma tokens_count_text_deltas_witness :
  2 = text_deltas
        [ message_start_frame "msg_1" "claude-sonnet-x";
          sseEvent "content_block_start" (content_block_start 0 (text_block ""));
          sseEvent "content_block_delta" (content_block_delta 0 (text_delta "Hel"));
          sseEvent "content_block_delta" (content_block_delta 0 (text_delta "lo"));
          stop_frame 0 ].
Proof.
  apply (tokens_count_text_deltas demo_JSON_parse_plain demo_request "1"
           (response [data_line (content_payload "Hel"); data_line (content_payload "lo");
                      data_line (payload_finish "stop")] stream_end)
           _ [message_stop_frame] (sseEvent "message_delta" (message_delta end_turn 2))
           end_turn 2).
  - intros payload data H. apply parse_table_value in H.
    cbn [map snd] in H. destruct H as [<-|[<-|[<-|[]]]]; reflexivity.
  - vm_compute. reflexivity.
  - reflexivity.
Defined.
